(** * The chunk-to-region aggregation layer of the Amulet renderer

    A shallow embedding of
    [amulet_wx/world_manager/extensions/amulet_renderer/render_region.py]:
    the classes [ChunkManager] and [RenderRegion], with the OpenGL context
    they drive modelled as a log of calls and a counter of generated names.

    Python integers are [Z]; [//] is [Z.div] (both round towards minus
    infinity) and raises [ZeroDivisionError] on a zero divisor.  A Python
    [dict] is an insertion-ordered association list, a [set] of coordinates a
    [gset], the [queue.Queue] a list used first-in first-out.  Exceptions are
    the [Raise] results of an error monad. *)

From stdpp Require Import base decidable option list gmap strings.

Local Open Scope Z_scope.

(** ** Exceptions and the error monad *)

Inductive exn : Type :=
| ZeroDivisionError
| KeyError
| ValueError
| Blocked. (* [Queue.get] on an empty queue never returns *)

Inductive result (A : Type) : Type :=
| Ok (a : A)
| Raise (e : exn).
Arguments Ok {A} a.
Arguments Raise {A} e.

Definition res_bind {A B : Type} (m : result A) (k : A → result B) : result B :=
  match m with
  | Ok a => k a
  | Raise e => Raise e
  end.

Notation "x <-? m ; k" := (res_bind m (λ x, k))
  (at level 20, m at level 100, k at level 200, only parsing).
Notation "' p <-? m ; k" := (res_bind m (λ x, match x with p => k end))
  (at level 20, p pattern, m at level 100, k at level 200, only parsing).

(** ** Python dictionaries: insertion-ordered association lists *)

Section dict.
Context {K V : Type} `{EqDecision K}.

Fixpoint dict_get (k : K) (d : list (K * V)) : option V :=
  match d with
  | [] => None
  | (k', v) :: d' => if decide (k = k') then Some v else dict_get k d'
  end.

(** [k in d] *)
Definition dict_mem (k : K) (d : list (K * V)) : bool :=
  match dict_get k d with
  | Some _ => true
  | None => false
  end.

(** [d[k]], which raises [KeyError] for a missing key *)
Definition dict_item (k : K) (d : list (K * V)) : result V :=
  match dict_get k d with
  | Some v => Ok v
  | None => Raise KeyError
  end.

(** [d[k] = v]: an existing key keeps its place, a new key goes last *)
Fixpoint dict_set (k : K) (v : V) (d : list (K * V)) : list (K * V) :=
  match d with
  | [] => [(k, v)]
  | (k', v') :: d' =>
      if decide (k = k') then (k, v) :: d' else (k', v') :: dict_set k v d'
  end.

(** [del d[k]], which raises [KeyError] for a missing key *)
Fixpoint dict_del (k : K) (d : list (K * V)) : result (list (K * V)) :=
  match d with
  | [] => Raise KeyError
  | (k', v') :: d' =>
      if decide (k = k') then Ok d'
      else d'' <-? dict_del k d' ; Ok ((k', v') :: d'')
  end.

Definition dict_keys (d : list (K * V)) : list K := d.*1.
Definition dict_values (d : list (K * V)) : list V := d.*2.
End dict.

(** ** The OpenGL context *)

(** A float32 is kept as its bit pattern; the renderer only moves them. *)
Definition float32 : Type := Z.

(** 4x4 matrices are kept symbolic: the camera's, a region's translation,
    and [numpy.matmul] of two. *)
Inductive matrix : Type :=
| camera_transform (n : nat)
| eye_translated (x z : Z)
| numpy_matmul (a b : matrix).

(** What [shaders.get_shader] and [glGetUniformLocation] hand back. *)
Inductive shader : Type :=
| Shader (identifier name : string).

Inductive uniform : Type :=
| Uniform (program : option shader) (name : string).

Inductive gl_event : Type :=
| glGenVertexArrays (name : nat)
| glBindVertexArray (name : option nat)
| glGenBuffers (name : nat)
| glBindBuffer (name : option nat)
| glBufferData (size : Z) (data : list float32)
| glVertexAttribPointer (index size stride offset : Z)
| glEnableVertexAttribArray (index : Z)
| glUseProgram (program : option shader)
| glUniformMatrix4fv (location : option uniform) (value : matrix)
| glDrawArrays (first count : Z)
| glDeleteVertexArrays (name : option nat)
| chunk_unload (chunk : nat)
| chunk_draw (chunk : nat) (transformation_matrix : matrix).

Record gl_state : Type := {
  gl_names : nat;            (* how many object names were generated *)
  gl_log : list gl_event     (* the calls made so far, oldest first *)
}.

Definition gl_init : gl_state := {| gl_names := 0; gl_log := [] |}.

(** The state-and-error monad of code that talks to the GPU *)
Definition GL (A : Type) : Type := gl_state → result (A * gl_state).

Definition gl_ret {A : Type} (a : A) : GL A := λ g, Ok (a, g).

Definition gl_bind {A B : Type} (m : GL A) (k : A → GL B) : GL B :=
  λ g, match m g with
       | Ok (a, g') => k a g'
       | Raise e => Raise e
       end.

Definition gl_lift {A : Type} (m : result A) : GL A :=
  λ g, match m with
       | Ok a => Ok (a, g)
       | Raise e => Raise e
       end.

Notation "x <- m ; k" := (gl_bind m (λ x, k))
  (at level 20, m at level 100, k at level 200, only parsing).
Notation "' p <- m ; k" := (gl_bind m (λ x, match x with p => k end))
  (at level 20, p pattern, m at level 100, k at level 200, only parsing).
Notation "m ;; k" := (gl_bind m (λ _, k))
  (at level 100, k at level 200, only parsing, right associativity).

Definition emit (e : gl_event) : GL unit :=
  λ g, Ok (tt, {| gl_names := gl_names g; gl_log := gl_log g ++ [e] |}).

Definition gen_name (call : nat → gl_event) : GL nat :=
  λ g, let name := S (gl_names g) in
       Ok (name, {| gl_names := name; gl_log := gl_log g ++ [call name] |}).

(** [for x in l: body(x)] *)
Fixpoint for_each {A : Type} (body : A → GL unit) (l : list A) : GL unit :=
  match l with
  | [] => gl_ret tt
  | x :: l' => body x ;; for_each body l'
  end.

(** [for v in d.values(): body(v)], where [body] mutates the object [v] *)
Fixpoint for_values {K V : Type} (body : V → GL V) (d : list (K * V))
  : GL (list (K * V)) :=
  match d with
  | [] => gl_ret []
  | (k, v) :: d' =>
      v' <- body v ;
      d'' <- for_values body d' ;
      gl_ret ((k, v') :: d'')
  end.

(** [numpy.concatenate] of one-dimensional arrays *)
Definition numpy_concatenate (arrays : list (list float32)) : result (list float32) :=
  match arrays with
  | [] => Raise ValueError
  | _ :: _ => Ok (concat arrays)
  end.

(** ** RenderChunk *)

(** Modelled from the spec: [render_chunk.py] (the class [RenderChunk]) is
    missing.  The spec gives a unit its chunk coordinate and its vertex
    payload; [chunk_id] stands for the identity of the Python object.  Its
    methods [unload] (the spec's [release]) and [draw] (the spec's
    [drawStandalone]) act on the unit's own GPU resources and are recorded
    in the log. *)
Record RenderChunk : Type := {
  chunk_id : nat;
  cx : Z;
  cz : Z;
  chunk_lod0 : list float32
}.

#[global] Instance RenderChunk_eq_dec : EqDecision RenderChunk.
Proof. solve_decision. Defined.

Definition chunk_coords (chunk : RenderChunk) : Z * Z := (cx chunk, cz chunk).

Definition RenderChunk_unload (chunk : RenderChunk) : GL unit :=
  emit (chunk_unload (chunk_id chunk)).

Definition RenderChunk_draw (transformation_matrix : matrix) (chunk : RenderChunk)
  : GL unit :=
  emit (chunk_draw (chunk_id chunk) transformation_matrix).

(** ** RenderRegion *)

Module RenderRegion.

Record t : Type := {
  identifier : string;
  rx : Z;
  rz : Z;
  _chunks : list ((Z * Z) * RenderChunk);
  _manual_chunks : list RenderChunk;
  _shader : option shader;
  _trm_mat_loc : option uniform;
  _vao : option nat;
  _vbo : option nat;
  _draw_count : Z;
  region_transform : matrix
}.

Definition __init__ (rx rz region_size : Z) (identifier : string) : t :=
  {| identifier := identifier; rx := rx; rz := rz;
     _chunks := []; _manual_chunks := [];
     _shader := None; _trm_mat_loc := None; _vao := None; _vbo := None;
     _draw_count := 0;
     region_transform :=
       eye_translated (rx * region_size * 16) (rz * region_size * 16) |}.

Definition __contains__ (self : t) (item : Z * Z) : bool :=
  dict_mem item (_chunks self).

Definition add_render_chunk (self : t) (render_chunk : RenderChunk) : t :=
  {| identifier := identifier self; rx := rx self; rz := rz self;
     _chunks := dict_set (chunk_coords render_chunk) render_chunk (_chunks self);
     _manual_chunks := _manual_chunks self ++ [render_chunk];
     _shader := _shader self; _trm_mat_loc := _trm_mat_loc self;
     _vao := _vao self; _vbo := _vbo self;
     _draw_count := _draw_count self;
     region_transform := region_transform self |}.

Definition _setup (self : t) : GL t :=
  match _vao self with
  | Some _ => gl_ret self
  | None =>
      vao <- gen_name glGenVertexArrays ;
      emit (glBindVertexArray (Some vao)) ;;
      vbo <- gen_name glGenBuffers ;
      emit (glBindBuffer (Some vbo)) ;;
      emit (glBufferData 0 []) ;;
      emit (glVertexAttribPointer 0 3 40 0) ;;
      emit (glEnableVertexAttribArray 0) ;;
      emit (glVertexAttribPointer 1 2 40 12) ;;
      emit (glEnableVertexAttribArray 1) ;;
      emit (glVertexAttribPointer 2 4 40 20) ;;
      emit (glEnableVertexAttribArray 2) ;;
      emit (glVertexAttribPointer 3 1 40 36) ;;
      emit (glEnableVertexAttribArray 3) ;;
      emit (glBindVertexArray (Some 0%nat)) ;;
      let program := Some (Shader (identifier self) "render_chunk") in
      gl_ret
        {| identifier := identifier self; rx := rx self; rz := rz self;
           _chunks := _chunks self; _manual_chunks := _manual_chunks self;
           _shader := program;
           _trm_mat_loc := Some (Uniform program "transformation_matrix");
           _vao := Some vao; _vbo := Some vbo;
           _draw_count := _draw_count self;
           region_transform := region_transform self |}
  end.

Definition merge (self : t) : GL t :=
  self <- _setup self ;
  match _manual_chunks self with
  | [] => gl_ret self
  | _ :: _ =>
      emit (glBindVertexArray (_vao self)) ;;
      emit (glBindBuffer (_vbo self)) ;;
      verts <- gl_lift
        (numpy_concatenate (chunk_lod0 <$> dict_values (_chunks self))) ;
      emit (glBufferData (Z.of_nat (length verts) * 4) verts) ;;
      for_each RenderChunk_unload (_manual_chunks self) ;;
      gl_ret
        {| identifier := identifier self; rx := rx self; rz := rz self;
           _chunks := _chunks self; _manual_chunks := [];
           _shader := _shader self; _trm_mat_loc := _trm_mat_loc self;
           _vao := _vao self; _vbo := _vbo self;
           _draw_count := Z.of_nat (length verts) / 10;
           region_transform := region_transform self |}
  end.

Definition unload (self : t) : GL t :=
  vao <- match _vao self with
         | Some _ => emit (glDeleteVertexArrays (_vao self)) ;; gl_ret None
         | None => gl_ret (_vao self)
         end ;
  for_each RenderChunk_unload (dict_values (_chunks self)) ;;
  gl_ret
    {| identifier := identifier self; rx := rx self; rz := rz self;
       _chunks := []; _manual_chunks := _manual_chunks self;
       _shader := _shader self; _trm_mat_loc := _trm_mat_loc self;
       _vao := vao; _vbo := _vbo self;
       _draw_count := _draw_count self;
       region_transform := region_transform self |}.

Definition draw (transformation_matrix : matrix) (self : t) : GL t :=
  self <- _setup self ;
  emit (glUseProgram (_shader self)) ;;
  let transformation_matrix :=
    numpy_matmul (region_transform self) transformation_matrix in
  emit (glUniformMatrix4fv (_trm_mat_loc self) transformation_matrix) ;;
  emit (glBindVertexArray (_vao self)) ;;
  emit (glDrawArrays 0 (_draw_count self)) ;;
  for_each (RenderChunk_draw transformation_matrix) (_manual_chunks self) ;;
  gl_ret self.

End RenderRegion.

(** ** ChunkManager *)

Module ChunkManager.

Record t : Type := {
  identifier : string;
  region_size : Z;
  _regions : list ((Z * Z) * RenderRegion.t);
  _chunk_temp : list RenderChunk;
  _chunk_temp_set : gset (Z * Z)
}.

Definition set_regions (regions : list ((Z * Z) * RenderRegion.t)) (self : t) : t :=
  {| identifier := identifier self; region_size := region_size self;
     _regions := regions;
     _chunk_temp := _chunk_temp self; _chunk_temp_set := _chunk_temp_set self |}.

Definition set_chunk_temp (chunk_temp : list RenderChunk) (self : t) : t :=
  {| identifier := identifier self; region_size := region_size self;
     _regions := _regions self;
     _chunk_temp := chunk_temp; _chunk_temp_set := _chunk_temp_set self |}.

Definition set_chunk_temp_set (chunk_temp_set : gset (Z * Z)) (self : t) : t :=
  {| identifier := identifier self; region_size := region_size self;
     _regions := _regions self;
     _chunk_temp := _chunk_temp self; _chunk_temp_set := chunk_temp_set |}.

Definition __init__ (identifier : string) (region_size : Z) : t :=
  {| identifier := identifier; region_size := region_size;
     _regions := []; _chunk_temp := []; _chunk_temp_set := ∅ |}.

Definition add_render_chunk (self : t) (render_chunk : RenderChunk) : t :=
  let self := set_chunk_temp (_chunk_temp self ++ [render_chunk]) self in
  set_chunk_temp_set ({[ (cx render_chunk, cz render_chunk) ]} ∪ _chunk_temp_set self) self.

Definition region_coords (self : t) (cx cz : Z) : result (Z * Z) :=
  if decide (region_size self = 0) then Raise ZeroDivisionError
  else Ok (cx / region_size self, cz / region_size self).

(** The body of [for _ in range(self._chunk_temp.qsize())], run [n] times *)
Fixpoint _merge_chunk_temp_loop (n : nat) (self : t) : result t :=
  match n with
  | O => Ok self
  | S n' =>
      match _chunk_temp self with
      | [] => Raise Blocked
      | render_chunk :: rest =>
          let self := set_chunk_temp rest self in
          region_coords <-? region_coords self (cx render_chunk) (cz render_chunk) ;
          let self :=
            if negb (dict_mem region_coords (_regions self)) then
              set_regions
                (dict_set region_coords
                   (RenderRegion.__init__ region_coords.1 region_coords.2
                      (region_size self) (identifier self))
                   (_regions self)) self
            else self in
          region <-? dict_item region_coords (_regions self) ;
          let self :=
            set_regions
              (dict_set region_coords
                 (RenderRegion.add_render_chunk region render_chunk)
                 (_regions self)) self in
          _merge_chunk_temp_loop n' self
      end
  end.

Definition _merge_chunk_temp (self : t) : result t :=
  self <-? _merge_chunk_temp_loop (length (_chunk_temp self)) self ;
  Ok (set_chunk_temp_set ∅ self).

Definition __contains__ (self : t) (chunk_coords : Z * Z) : result bool :=
  region_coords <-? region_coords self chunk_coords.1 chunk_coords.2 ;
  if bool_decide (chunk_coords ∈ _chunk_temp_set self) then Ok true
  else if dict_mem region_coords (_regions self) then
    region <-? dict_item region_coords (_regions self) ;
    Ok (RenderRegion.__contains__ region chunk_coords)
  else Ok false.

Definition draw (self : t) (camera_transform : matrix) : GL t :=
  regions <- for_values (RenderRegion.draw camera_transform) (_regions self) ;
  gl_lift (_merge_chunk_temp (set_regions regions self)).

(** [for _ in range(qsize): self._chunk_temp.get()], run [n] times *)
Fixpoint discard_loop (n : nat) (chunk_temp : list RenderChunk)
  : result (list RenderChunk) :=
  match n with
  | O => Ok chunk_temp
  | S n' =>
      match chunk_temp with
      | [] => Raise Blocked
      | _ :: rest => discard_loop n' rest
      end
  end.

(** The first loop of the [safe_area] branch of [unload]: the regions as
    the loop leaves them, and [delete_regions]. *)
Fixpoint unload_loop (min_rx min_rz max_rx max_rz : Z)
    (regions : list ((Z * Z) * RenderRegion.t))
  : GL (list ((Z * Z) * RenderRegion.t) * list (Z * Z)) :=
  match regions with
  | [] => gl_ret ([], [])
  | (k, region) :: regions' =>
      if (min_rx <=? RenderRegion.rx region) && (RenderRegion.rx region <=? max_rx)
         && ((min_rz <=? RenderRegion.rz region) && (RenderRegion.rz region <=? max_rz))
      then
        region <- RenderRegion.merge region ;
        '(regions'', delete_regions) <-
          unload_loop min_rx min_rz max_rx max_rz regions' ;
        gl_ret ((k, region) :: regions'', delete_regions)
      else
        region <- RenderRegion.unload region ;
        '(regions'', delete_regions) <-
          unload_loop min_rx min_rz max_rx max_rz regions' ;
        gl_ret ((k, region) :: regions'',
                (RenderRegion.rx region, RenderRegion.rz region) :: delete_regions)
  end.

(** [for region in delete_regions: del self._regions[region]] *)
Fixpoint delete_loop (delete_regions : list (Z * Z))
    (regions : list ((Z * Z) * RenderRegion.t))
  : result (list ((Z * Z) * RenderRegion.t)) :=
  match delete_regions with
  | [] => Ok regions
  | region :: delete_regions' =>
      regions <-? dict_del region regions ;
      delete_loop delete_regions' regions
  end.

Definition unload (self : t) (safe_area : option (Z * Z * Z * Z)) : GL t :=
  match safe_area with
  | None =>
      chunk_temp <- gl_lift (discard_loop (length (_chunk_temp self)) (_chunk_temp self)) ;
      let self := set_chunk_temp chunk_temp self in
      let self := set_chunk_temp_set ∅ self in
      regions <- for_values RenderRegion.unload (_regions self) ;
      let self := set_regions regions self in
      gl_ret (set_regions [] self)
  | Some (x0, z0, x1, z1) =>
      '(min_rx, min_rz) <- gl_lift (region_coords self x0 z0) ;
      '(max_rx, max_rz) <- gl_lift (region_coords self x1 z1) ;
      '(regions, delete_regions) <-
        unload_loop min_rx min_rz max_rx max_rz (_regions self) ;
      regions <- gl_lift (delete_loop delete_regions regions) ;
      gl_ret (set_regions regions self)
  end.

End ChunkManager.

(** ** Reading the log *)

Definition drawn_chunk (e : gl_event) : option nat :=
  match e with chunk_draw chunk _ => Some chunk | _ => None end.

Definition unloaded_chunk (e : gl_event) : option nat :=
  match e with chunk_unload chunk => Some chunk | _ => None end.

Definition uploaded_data (e : gl_event) : option (list float32) :=
  match e with glBufferData _ data => Some data | _ => None end.

Definition deleted_vertex_array (e : gl_event) : option (option nat) :=
  match e with glDeleteVertexArrays name => Some name | _ => None end.

(** The units drawn standalone, the units released, the buffer uploads and
    the vertex arrays deleted by a run of calls, in order. *)
Definition drawn_chunks (evs : list gl_event) : list nat := omap drawn_chunk evs.
Definition unloaded_chunks (evs : list gl_event) : list nat := omap unloaded_chunk evs.
Definition uploads (evs : list gl_event) : list (list float32) := omap uploaded_data evs.
Definition deleted_vertex_arrays (evs : list gl_event) : list (option nat) :=
  omap deleted_vertex_array evs.

(** [m], started in [g], returns [a] in [g'] after making the calls [evs]. *)
Definition steps {A : Type} (m : GL A) (g : gl_state) (a : A)
    (evs : list gl_event) (g' : gl_state) : Prop :=
  m g = Ok (a, g') ∧ gl_log g' = gl_log g ++ evs.

(** The same state with the calls [evs] appended to the log *)
Definition log_add (g : gl_state) (evs : list gl_event) : gl_state :=
  {| gl_names := gl_names g; gl_log := gl_log g ++ evs |}.

Definition unload_calls (chunks : list RenderChunk) : list gl_event :=
  (λ u, chunk_unload (chunk_id u)) <$> chunks.

Definition draw_calls (m : matrix) (chunks : list RenderChunk) : list gl_event :=
  (λ u, chunk_draw (chunk_id u) m) <$> chunks.

(** Two states of a region object that differ in its GPU handles only *)
Definition same_content (r r' : RenderRegion.t) : Prop :=
  RenderRegion.identifier r' = RenderRegion.identifier r
  ∧ RenderRegion.rx r' = RenderRegion.rx r
  ∧ RenderRegion.rz r' = RenderRegion.rz r
  ∧ RenderRegion._chunks r' = RenderRegion._chunks r
  ∧ RenderRegion._manual_chunks r' = RenderRegion._manual_chunks r
  ∧ RenderRegion._draw_count r' = RenderRegion._draw_count r
  ∧ RenderRegion.region_transform r' = RenderRegion.region_transform r.

(** ** Invariants *)

(** The region coordinate of a chunk coordinate, for a non-zero region size *)
Definition region_of (region_size : Z) (c : Z * Z) : Z * Z :=
  (c.1 / region_size, c.2 / region_size).

(** The pending unit added last for the coordinate of [u] *)
Definition last_pending (pending : list RenderChunk) (u : RenderChunk)
  : option RenderChunk :=
  last (filter (λ v, chunk_coords v = chunk_coords u) pending).

(** Every pending unit's coordinate is owned, by the unit added last for it;
    every unit is filed under its own coordinate. *)
Definition region_inv (r : RenderRegion.t) : Prop :=
  NoDup (dict_keys (RenderRegion._chunks r))
  ∧ Forall (λ cu, cu.1 = chunk_coords cu.2) (RenderRegion._chunks r)
  ∧ Forall (λ u, dict_get (chunk_coords u) (RenderRegion._chunks r)
                 = last_pending (RenderRegion._manual_chunks r) u)
      (RenderRegion._manual_chunks r).

#[global] Instance region_inv_dec r : Decision (region_inv r).
Proof. unfold region_inv. apply _. Defined.

(** A region is filed under its own coordinate and owns only chunks of its
    own square. *)
Definition region_placed (region_size : Z) (k : Z * Z) (r : RenderRegion.t) : Prop :=
  (RenderRegion.rx r, RenderRegion.rz r) = k
  ∧ Forall (λ cu, region_of region_size cu.1 = k) (RenderRegion._chunks r)
  ∧ region_inv r.

#[global] Instance region_placed_dec rs k r : Decision (region_placed rs k r).
Proof. unfold region_placed. apply _. Defined.

(** The state of a [ChunkManager]: regions are filed once, each in its
    place, and the lookup set mirrors the queue. *)
Definition manager_inv (cm : ChunkManager.t) : Prop :=
  ChunkManager.region_size cm ≠ 0
  ∧ NoDup (dict_keys (ChunkManager._regions cm))
  ∧ Forall (λ kr, region_placed (ChunkManager.region_size cm) kr.1 kr.2)
      (ChunkManager._regions cm)
  ∧ Forall (λ u, chunk_coords u ∈ ChunkManager._chunk_temp_set cm)
      (ChunkManager._chunk_temp cm).

#[global] Instance manager_inv_dec cm : Decision (manager_inv cm).
Proof. unfold manager_inv. apply _. Defined.

(** The chunk coordinate [c] is resident in the region filed under [k]. *)
Definition resident (cm : ChunkManager.t) (c k : Z * Z) : Prop :=
  ∃ r, dict_get k (ChunkManager._regions cm) = Some r
       ∧ RenderRegion.__contains__ r c = true.

(** The regions a chunk coordinate is resident in. *)
Definition homes (cm : ChunkManager.t) (c : Z * Z) : list (Z * Z) :=
  (filter (λ kr, RenderRegion.__contains__ kr.2 c = true) (ChunkManager._regions cm)).*1.

(** [safe_area]'s box of region coordinates, as [unload] tests it *)
Definition in_box (min_r max_r k : Z * Z) : Prop :=
  min_r.1 ≤ k.1 ≤ max_r.1 ∧ min_r.2 ≤ k.2 ≤ max_r.2.

#[global] Instance in_box_dec min_r max_r k : Decision (in_box min_r max_r k).
Proof. unfold in_box. apply _. Defined.

(** ** Sequences of calls *)

Inductive region_call : Type :=
| addUnit (unit : RenderChunk)
| merge
| draw (transformation_matrix : matrix)
| unload.

Definition region_step (r : RenderRegion.t) (c : region_call) : GL RenderRegion.t :=
  match c with
  | addUnit unit => gl_ret (RenderRegion.add_render_chunk r unit)
  | merge => RenderRegion.merge r
  | draw transformation_matrix => RenderRegion.draw transformation_matrix r
  | unload => RenderRegion.unload r
  end.

Fixpoint region_run (calls : list region_call) (r : RenderRegion.t) : GL RenderRegion.t :=
  match calls with
  | [] => gl_ret r
  | c :: calls' => r' <- region_step r c ; region_run calls' r'
  end.

Definition keeps_region (c : region_call) : bool :=
  match c with unload => false | _ => true end.

(** A unit is mergeable into its region once the owned map is not empty. *)
Definition mergeable (r : RenderRegion.t) : Prop :=
  RenderRegion._manual_chunks r ≠ [] → RenderRegion._chunks r ≠ [].

(** ** What a drain does to the region filed under [k] *)

(** The queued units that belong to the region [k], in queue order *)
Definition routed (region_size : Z) (k : Z * Z) (queue : list RenderChunk)
  : list RenderChunk :=
  filter (λ u, region_of region_size (chunk_coords u) = k) queue.

(** The region filed under [k] after the queue is drained: the old one, or
    a fresh one when a queued unit asks for it, with the routed units added. *)
Definition region_after (identifier : string) (region_size : Z) (k : Z * Z)
    (queue : list RenderChunk) (old : option RenderRegion.t)
  : option RenderRegion.t :=
  match routed region_size k queue with
  | [] => old
  | _ :: _ =>
      Some (foldl RenderRegion.add_render_chunk
              (default (RenderRegion.__init__ k.1 k.2 region_size identifier) old)
              (routed region_size k queue))
  end.

(** The units pending in some region of a region map, in drawing order *)
Definition all_pending (regions : list ((Z * Z) * RenderRegion.t)) : list RenderChunk :=
  dict_values regions ≫= RenderRegion._manual_chunks.

(** Regions before and after a loop that keeps keys and relates values *)
Definition regions_rel (R : RenderRegion.t → RenderRegion.t → Prop)
    (d d' : list ((Z * Z) * RenderRegion.t)) : Prop :=
  Forall2 (λ kr kr', kr'.1 = kr.1 ∧ R kr.2 kr'.2) d d'.

(** What [unload(safe_area)] leaves of a region: one inside the box is
    merged, with the same owned map and nothing pending. *)
Definition settled (min_r max_r : Z * Z) (r r' : RenderRegion.t) : Prop :=
  RenderRegion.rx r' = RenderRegion.rx r
  ∧ RenderRegion.rz r' = RenderRegion.rz r
  ∧ (in_box min_r max_r (RenderRegion.rx r, RenderRegion.rz r) →
     RenderRegion._chunks r' = RenderRegion._chunks r
     ∧ RenderRegion._manual_chunks r' = []).

(** The calls [evs] unload the region [r]: every unit of its owned map is
    released and its vertex array, if it has one, is deleted. *)
Definition unloaded_by (evs : list gl_event) (r : RenderRegion.t) : Prop :=
  (∀ u, u ∈ dict_values (RenderRegion._chunks r) → chunk_id u ∈ unloaded_chunks evs)
  ∧ (∀ vao, RenderRegion._vao r = Some vao → Some vao ∈ deleted_vertex_arrays evs).

(** ** Sequences of calls on a ChunkManager *)

Inductive manager_call : Type :=
| submit (unit : RenderChunk)
| frame (camera : matrix)
| evict (safe_area : option (Z * Z * Z * Z)).

Definition manager_step (cm : ChunkManager.t) (c : manager_call) : GL ChunkManager.t :=
  match c with
  | submit unit => gl_ret (ChunkManager.add_render_chunk cm unit)
  | frame camera => ChunkManager.draw cm camera
  | evict safe_area => ChunkManager.unload cm safe_area
  end.

Fixpoint manager_run (calls : list manager_call) (cm : ChunkManager.t)
  : GL ChunkManager.t :=
  match calls with
  | [] => gl_ret cm
  | c :: calls' => cm' <- manager_step cm c ; manager_run calls' cm'
  end.

(** The calls made after the state [g] was reached *)
Definition calls_since (g g' : gl_state) : list gl_event :=
  drop (length (gl_log g)) (gl_log g').

(** ** The claims that fail, as the specification states them *)

(** Every pending unit is the unit its coordinate is mapped to. *)
Definition pending_is_owned (r : RenderRegion.t) : Prop :=
  ∀ u, u ∈ RenderRegion._manual_chunks r →
       dict_get (chunk_coords u) (RenderRegion._chunks r) = Some u.

(** After [unload] nothing is left of the region: no vertex array, no
    vertex buffer, no owned unit, no pending unit. *)
Definition fully_cleared (r : RenderRegion.t) : Prop :=
  RenderRegion._vao r = None
  ∧ RenderRegion._vbo r = None
  ∧ RenderRegion._chunks r = []
  ∧ RenderRegion._manual_chunks r = [].

(** ** Sample data *)

Definition vertex (x : Z) : list float32 := [x; 0; 0; 0; 0; 0; 0; 0; 0; 0].

Definition unit_a : RenderChunk :=
  {| chunk_id := 0; cx := 0; cz := 0; chunk_lod0 := vertex 1 |}.
Definition unit_b : RenderChunk :=
  {| chunk_id := 1; cx := 0; cz := 0; chunk_lod0 := vertex 2 |}.
Definition unit_c : RenderChunk :=
  {| chunk_id := 2; cx := 20; cz := -1; chunk_lod0 := vertex 3 ++ vertex 4 |}.

Definition camera : matrix := camera_transform 0.

Definition fresh_region : RenderRegion.t := RenderRegion.__init__ 0 0 16 "demo".

Definition region_a : RenderRegion.t := RenderRegion.add_render_chunk fresh_region unit_a.

Definition fresh_manager : ChunkManager.t := ChunkManager.__init__ "demo" 16.

(** One resident unit and one queued unit *)
Definition manager_ac : ChunkManager.t :=
  {| ChunkManager.identifier := "demo"; ChunkManager.region_size := 16;
     ChunkManager._regions := [((0, 0), region_a)];
     ChunkManager._chunk_temp := [unit_c];
     ChunkManager._chunk_temp_set := {[ (20, -1) ]} |}.

(** * Proofs *)

(** ** Dictionaries *)

Section dict_facts.
Context {K V : Type} `{EqDecision K}.
Implicit Types (k : K) (v : V) (d : list (K * V)).

Lemma dict_get_set_eq k v d : dict_get k (dict_set k v d) = Some v.
Proof.
  induction d as [|[k' v'] d IH]; simpl.
  - by rewrite decide_True.
  - destruct (decide (k = k')) as [->|Hne]; simpl.
    + by rewrite decide_True.
    + by rewrite decide_False.
Qed.

Lemma dict_get_set_ne k k' v d :
  k ≠ k' → dict_get k' (dict_set k v d) = dict_get k' d.
Proof.
  intros Hne. induction d as [|[k0 v0] d IH]; simpl.
  - by rewrite decide_False.
  - destruct (decide (k = k0)) as [->|Hk]; simpl.
    + by rewrite !decide_False.
    + by rewrite IH.
Qed.

Lemma dict_get_Some_elem k v d : dict_get k d = Some v → (k, v) ∈ d.
Proof.
  induction d as [|[k' v'] d IH]; simpl; [done|].
  destruct (decide (k = k')) as [->|Hne].
  - intros [= ->]. left.
  - intros Hd. right. auto.
Qed.

Lemma dict_get_None_keys k d : dict_get k d = None ↔ k ∉ dict_keys d.
Proof.
  unfold dict_keys. induction d as [|[k' v'] d IH]; simpl.
  - split; [intros _; apply not_elem_of_nil | done].
  - rewrite not_elem_of_cons. destruct (decide (k = k')) as [->|Hne].
    + split; [done | intros [? _]; done].
    + rewrite IH. tauto.
Qed.

Lemma dict_get_elem k v d :
  NoDup (dict_keys d) → (k, v) ∈ d → dict_get k d = Some v.
Proof.
  unfold dict_keys. induction d as [|[k' v'] d IH]; simpl.
  - intros _ Hin. by apply elem_of_nil in Hin.
  - rewrite NoDup_cons. intros [Hk Hnd] Hin.
    apply elem_of_cons in Hin as [[= -> ->]|Hin].
    + by rewrite decide_True.
    + rewrite decide_False; [auto|].
      intros ->. apply Hk. apply list_elem_of_fmap. by exists (k', v).
Qed.

Lemma dict_mem_true k d : dict_mem k d = true ↔ is_Some (dict_get k d).
Proof.
  unfold dict_mem. destruct (dict_get k d); split; try done.
Qed.

Lemma dict_keys_set k v d :
  dict_keys (dict_set k v d)
  = if dict_mem k d then dict_keys d else dict_keys d ++ [k].
Proof.
  unfold dict_keys, dict_mem. induction d as [|[k' v'] d IH]; csimpl; [done|].
  destruct (decide (k = k')) as [->|Hne]; csimpl; [done|].
  rewrite IH. by destruct (dict_get k d).
Qed.

Lemma dict_set_NoDup k v d :
  NoDup (dict_keys d) → NoDup (dict_keys (dict_set k v d)).
Proof.
  intros Hnd. rewrite dict_keys_set.
  destruct (dict_mem k d) eqn:Hmem; [done|].
  apply NoDup_app. split_and!; [done| |apply NoDup_singleton].
  intros x Hx Hxk%list_elem_of_singleton. subst x.
  apply dict_get_None_keys in Hx; [done|].
  unfold dict_mem in Hmem. by destruct (dict_get k d).
Qed.

Lemma dict_set_elem k v d kv :
  kv ∈ dict_set k v d → kv = (k, v) ∨ kv ∈ d.
Proof.
  induction d as [|[k' v'] d IH]; simpl.
  - intros ->%list_elem_of_singleton. by left.
  - destruct (decide (k = k')) as [->|Hne].
    + intros [->|Hin]%elem_of_cons; [by left|]. right. by right.
    + intros [->|Hin]%elem_of_cons; [right; left|].
      destruct (IH Hin) as [->|?]; [by left|]. right. by right.
Qed.

Lemma dict_set_Forall (P : K * V → Prop) k v d :
  P (k, v) → Forall P d → Forall P (dict_set k v d).
Proof.
  intros Hkv Hd. apply Forall_forall. intros kv Hin.
  apply dict_set_elem in Hin as [->|Hin]; [done|].
  by eapply Forall_forall in Hd.
Qed.

Lemma dict_del_Ok k d :
  k ∈ dict_keys d →
  ∃ d', dict_del k d = Ok d'
        ∧ (NoDup (dict_keys d) → dict_get k d' = None)
        ∧ (∀ k', k' ≠ k → dict_get k' d' = dict_get k' d)
        ∧ d' ⊆+ d.
Proof.
  unfold dict_keys. induction d as [|[k' v'] d IH]; csimpl.
  - intros Hin. by apply elem_of_nil in Hin.
  - intros Hin. destruct (decide (k = k')) as [->|Hne].
    + exists d. split_and!.
      * done.
      * intros [Hk _]%NoDup_cons. by apply dict_get_None_keys.
      * intros k Hk. by rewrite decide_False.
      * by apply submseteq_cons.
    + apply elem_of_cons in Hin as [?|Hin]; [done|].
      destruct (IH Hin) as (d' & -> & Hget & Hother & Hsub). simpl.
      exists ((k', v') :: d'). split_and!.
      * done.
      * intros [_ Hnd]%NoDup_cons. simpl. rewrite decide_False by done. auto.
      * intros k0 Hk0. simpl. destruct (decide (k0 = k')); [done|]. auto.
      * by apply submseteq_skip.
Qed.
End dict_facts.

(** ** The GL monad *)

Lemma steps_ret {A : Type} (a : A) g : steps (gl_ret a) g a [] g.
Proof. split; [done|]. by rewrite app_nil_r. Qed.

Lemma steps_bind {A B : Type} (m : GL A) (k : A → GL B) g a evs1 g1 b evs2 g2 :
  steps m g a evs1 g1 → steps (k a) g1 b evs2 g2 →
  steps (gl_bind m k) g b (evs1 ++ evs2) g2.
Proof.
  intros [Hm Hl1] [Hk Hl2]. split.
  - unfold gl_bind. by rewrite Hm.
  - by rewrite Hl2, Hl1, app_assoc.
Qed.

Lemma log_add_nil g : log_add g [] = g.
Proof. destruct g. unfold log_add. simpl. by rewrite app_nil_r. Qed.

Lemma log_add_app g evs1 evs2 : log_add (log_add g evs1) evs2 = log_add g (evs1 ++ evs2).
Proof. unfold log_add. simpl. by rewrite app_assoc. Qed.

Lemma for_each_unload chunks g :
  for_each RenderChunk_unload chunks g = Ok (tt, log_add g (unload_calls chunks)).
Proof.
  revert g. induction chunks as [|u chunks IH]; intros g; simpl.
  - by rewrite log_add_nil.
  - unfold gl_bind, RenderChunk_unload, emit. simpl. rewrite IH.
    unfold unload_calls. csimpl. unfold log_add. simpl.
    by rewrite <- app_assoc.
Qed.

Lemma for_each_draw m chunks g :
  for_each (RenderChunk_draw m) chunks g = Ok (tt, log_add g (draw_calls m chunks)).
Proof.
  revert g. induction chunks as [|u chunks IH]; intros g; simpl.
  - by rewrite log_add_nil.
  - unfold gl_bind, RenderChunk_draw, emit. simpl. rewrite IH.
    unfold draw_calls. csimpl. unfold log_add. simpl.
    by rewrite <- app_assoc.
Qed.

Lemma unloaded_unload_calls chunks :
  unloaded_chunks (unload_calls chunks) = chunk_id <$> chunks.
Proof. induction chunks as [|u chunks IH]; csimpl; [done|]. by f_equal. Qed.

Lemma drawn_unload_calls chunks : drawn_chunks (unload_calls chunks) = [].
Proof. induction chunks as [|u chunks IH]; csimpl; done. Qed.

Lemma uploads_unload_calls chunks : uploads (unload_calls chunks) = [].
Proof. induction chunks as [|u chunks IH]; csimpl; done. Qed.

Lemma deleted_unload_calls chunks : deleted_vertex_arrays (unload_calls chunks) = [].
Proof. induction chunks as [|u chunks IH]; csimpl; done. Qed.

Lemma drawn_draw_calls m chunks :
  drawn_chunks (draw_calls m chunks) = chunk_id <$> chunks.
Proof. induction chunks as [|u chunks IH]; csimpl; [done|]. by f_equal. Qed.

Lemma unloaded_draw_calls m chunks : unloaded_chunks (draw_calls m chunks) = [].
Proof. induction chunks as [|u chunks IH]; csimpl; done. Qed.

Lemma uploads_draw_calls m chunks : uploads (draw_calls m chunks) = [].
Proof. induction chunks as [|u chunks IH]; csimpl; done. Qed.

Lemma deleted_draw_calls m chunks : deleted_vertex_arrays (draw_calls m chunks) = [].
Proof. induction chunks as [|u chunks IH]; csimpl; done. Qed.

Lemma drawn_chunks_app evs1 evs2 :
  drawn_chunks (evs1 ++ evs2) = drawn_chunks evs1 ++ drawn_chunks evs2.
Proof. apply omap_app. Qed.

Lemma unloaded_chunks_app evs1 evs2 :
  unloaded_chunks (evs1 ++ evs2) = unloaded_chunks evs1 ++ unloaded_chunks evs2.
Proof. apply omap_app. Qed.

Lemma uploads_app evs1 evs2 : uploads (evs1 ++ evs2) = uploads evs1 ++ uploads evs2.
Proof. apply omap_app. Qed.

Lemma deleted_vertex_arrays_app evs1 evs2 :
  deleted_vertex_arrays (evs1 ++ evs2)
  = deleted_vertex_arrays evs1 ++ deleted_vertex_arrays evs2.
Proof. apply omap_app. Qed.

(** ** RenderRegion *)

(** What [_setup] does: nothing once the vertex array exists, and otherwise
    fourteen calls, none of which draws, releases or deletes anything, and
    whose only upload is the empty one. *)
Lemma setup_steps r g :
  ∃ r' evs g',
    steps (RenderRegion._setup r) g r' evs g'
    ∧ same_content r r'
    ∧ is_Some (RenderRegion._vao r')
    ∧ (is_Some (RenderRegion._vao r) → r' = r ∧ evs = [])
    ∧ drawn_chunks evs = []
    ∧ unloaded_chunks evs = []
    ∧ deleted_vertex_arrays evs = []
    ∧ Forall (λ data, data = []) (uploads evs).
Proof.
  unfold RenderRegion._setup. destruct (RenderRegion._vao r) as [vao|] eqn:Hvao.
  - exists r, [], g. split_and!; try done. apply steps_ret.
  - eexists _, _, _. split_and!.
    + split; [reflexivity|]. simpl. rewrite <- !app_assoc. reflexivity.
    + done.
    + done.
    + by intros [? ?].
    + done.
    + done.
    + done.
    + by repeat constructor.
Qed.

Lemma draw_steps t r g :
  ∃ r' evs g',
    steps (RenderRegion.draw t r) g r' evs g'
    ∧ same_content r r'
    ∧ is_Some (RenderRegion._vao r')
    ∧ drawn_chunks evs = chunk_id <$> RenderRegion._manual_chunks r
    ∧ unloaded_chunks evs = []
    ∧ deleted_vertex_arrays evs = []
    ∧ Forall (λ data, data = []) (uploads evs).
Proof.
  destruct (setup_steps r g)
    as (r1 & evs1 & g1 & [Hrun Hlog] & Hsame & Hvao & _ & Hd & Hu & Hdel & Hup).
  eexists _, _, _. split_and!.
  - unfold steps, RenderRegion.draw, gl_bind. rewrite Hrun. unfold emit. simpl.
    rewrite for_each_draw.
    split; [reflexivity|]. simpl. rewrite Hlog, <- !app_assoc. reflexivity.
  - done.
  - done.
  - rewrite !drawn_chunks_app, Hd, drawn_draw_calls.
    destruct Hsame as (_ & _ & _ & _ & -> & _). done.
  - rewrite !unloaded_chunks_app, Hu, unloaded_draw_calls. reflexivity.
  - rewrite !deleted_vertex_arrays_app, Hdel, deleted_draw_calls. reflexivity.
  - rewrite !uploads_app, uploads_draw_calls. apply Forall_app. split; [done|].
    constructor.
Qed.

(** [merge] on a region with pending units and an empty owned map: nothing
    to concatenate. *)
Lemma merge_raises r g :
  RenderRegion._manual_chunks r ≠ [] → RenderRegion._chunks r = [] →
  RenderRegion.merge r g = Raise ValueError.
Proof.
  intros Hpending Hchunks.
  destruct (setup_steps r g) as (r1 & evs1 & g1 & [Hrun _] & Hsame & _).
  destruct Hsame as (_ & _ & _ & Hc & Hm & _).
  unfold RenderRegion.merge, gl_bind. rewrite Hrun, Hm.
  destruct (RenderRegion._manual_chunks r); [done|].
  unfold emit. simpl. by rewrite Hc, Hchunks.
Qed.

Lemma merge_steps r g :
  (RenderRegion._manual_chunks r ≠ [] → RenderRegion._chunks r ≠ []) →
  ∃ r' evs g',
    steps (RenderRegion.merge r) g r' evs g'
    ∧ RenderRegion.identifier r' = RenderRegion.identifier r
    ∧ RenderRegion.rx r' = RenderRegion.rx r
    ∧ RenderRegion.rz r' = RenderRegion.rz r
    ∧ RenderRegion._chunks r' = RenderRegion._chunks r
    ∧ RenderRegion._manual_chunks r' = []
    ∧ is_Some (RenderRegion._vao r')
    ∧ unloaded_chunks evs = chunk_id <$> RenderRegion._manual_chunks r
    ∧ drawn_chunks evs = []
    ∧ deleted_vertex_arrays evs = []
    ∧ (RenderRegion._manual_chunks r ≠ [] →
       let verts := concat (chunk_lod0 <$> dict_values (RenderRegion._chunks r)) in
       last (uploads evs) = Some verts
       ∧ RenderRegion._draw_count r' = Z.of_nat (length verts) / 10).
Proof.
  intros Hne.
  destruct (setup_steps r g)
    as (r1 & evs1 & g1 & [Hrun Hlog] & Hsame & Hvao & _ & Hd & Hu & Hdel & Hup).
  destruct Hsame as (Hi & Hx & Hz & Hc & Hm & _).
  unfold steps, RenderRegion.merge, gl_bind. rewrite Hrun, Hm.
  destruct (RenderRegion._manual_chunks r) as [|u pending] eqn:Hpending.
  - exists r1, evs1, g1. split_and!; done.
  - unfold emit. simpl. rewrite Hc.
    destruct (RenderRegion._chunks r) as [|cu chunks] eqn:Hchunks.
    { by destruct Hne. }
    simpl.
    change (gl_bind (RenderChunk_unload u) (λ _, for_each RenderChunk_unload pending))
      with (for_each RenderChunk_unload (u :: pending)).
    rewrite for_each_unload.
    eexists _, _, _. split_and!.
    + reflexivity.
    + unfold log_add. cbn [gl_log]. rewrite Hlog, <- !app_assoc. reflexivity.
    + done.
    + done.
    + done.
    + done.
    + done.
    + done.
    + rewrite !unloaded_chunks_app, Hu, unloaded_unload_calls. reflexivity.
    + rewrite !drawn_chunks_app, Hd, drawn_unload_calls. reflexivity.
    + rewrite !deleted_vertex_arrays_app, Hdel, deleted_unload_calls. reflexivity.
    + intros _. split; [|done].
      rewrite !uploads_app, uploads_unload_calls.
      rewrite !app_assoc, app_nil_r.
      change (uploads [glBufferData ?n ?d]) with [d]. by rewrite last_snoc.
Qed.

Lemma unload_steps r g :
  ∃ r' g',
    steps (RenderRegion.unload r) g r'
      (match RenderRegion._vao r with
       | Some vao => [glDeleteVertexArrays (Some vao)]
       | None => []
       end ++ unload_calls (dict_values (RenderRegion._chunks r))) g'
    ∧ RenderRegion.rx r' = RenderRegion.rx r
    ∧ RenderRegion.rz r' = RenderRegion.rz r
    ∧ RenderRegion._chunks r' = []
    ∧ RenderRegion._vao r' = None
    ∧ RenderRegion._manual_chunks r' = RenderRegion._manual_chunks r
    ∧ RenderRegion._vbo r' = RenderRegion._vbo r
    ∧ RenderRegion._draw_count r' = RenderRegion._draw_count r.
Proof.
  unfold steps, RenderRegion.unload, gl_bind.
  destruct (RenderRegion._vao r) as [vao|] eqn:Hvao; simpl;
    rewrite for_each_unload; eexists _, _; split_and!;
    try reflexivity.
  unfold log_add. simpl. by rewrite <- app_assoc.
Qed.

Lemma setup_allocated r g :
  is_Some (RenderRegion._vao r) → RenderRegion._setup r g = Ok (r, g).
Proof. intros [vao Hvao]. unfold RenderRegion._setup. by rewrite Hvao. Qed.

Lemma merge_settled r g :
  is_Some (RenderRegion._vao r) → RenderRegion._manual_chunks r = [] →
  RenderRegion.merge r g = Ok (r, g).
Proof.
  intros Hvao Hpending. unfold RenderRegion.merge, gl_bind.
  rewrite setup_allocated by done. by rewrite Hpending.
Qed.

Lemma merge_Ok_mergeable r g r1 g1 :
  RenderRegion.merge r g = Ok (r1, g1) → mergeable r.
Proof.
  intros Hrun Hpending Hchunks.
  by rewrite (merge_raises r g Hpending Hchunks) in Hrun.
Qed.

(** ** The region invariant *)

Lemma last_pending_elem pending u :
  u ∈ pending → is_Some (last_pending pending u).
Proof.
  intros Hin. unfold last_pending.
  destruct (filter _ pending) as [|v l] eqn:Hf using rev_ind.
  - assert (u ∈ filter (λ v, chunk_coords v = chunk_coords u) pending) as Hu
      by by apply list_elem_of_filter.
    rewrite Hf in Hu. by apply elem_of_nil in Hu.
  - rewrite last_snoc. by eexists.
Qed.

Lemma region_inv_mergeable r : region_inv r → mergeable r.
Proof.
  intros (_ & _ & Hp) Hne Hchunks.
  destruct (RenderRegion._manual_chunks r) as [|u pending] eqn:Hpending; [done|].
  apply Forall_cons in Hp as [Hu _]. rewrite Hchunks in Hu. simpl in Hu.
  destruct (last_pending_elem (u :: pending) u) as [v Hv]; [left|]. congruence.
Qed.

Lemma region_inv_init rx rz region_size identifier :
  region_inv (RenderRegion.__init__ rx rz region_size identifier).
Proof. split_and!; simpl; constructor. Qed.

Lemma region_inv_add r u :
  region_inv r → region_inv (RenderRegion.add_render_chunk r u).
Proof.
  intros (Hnd & Hfiled & Hp). split_and!; simpl.
  - by apply dict_set_NoDup.
  - by apply dict_set_Forall.
  - apply Forall_forall. intros v Hv. unfold last_pending.
    rewrite filter_app.
    destruct (decide (chunk_coords u = chunk_coords v)) as [Heq|Hne].
    + rewrite <- Heq, dict_get_set_eq.
      rewrite (filter_cons_True _ u []) by done. cbn [filter list_filter].
      by rewrite last_snoc.
    + rewrite dict_get_set_ne by done.
      rewrite (filter_cons_False _ u []) by (intros ?; by apply Hne).
      cbn [filter list_filter]. rewrite app_nil_r.
      apply elem_of_app in Hv as [Hv|Hv%list_elem_of_singleton]; [|by subst].
      by eapply Forall_forall in Hp.
Qed.

Lemma region_inv_content r r' :
  RenderRegion._chunks r' = RenderRegion._chunks r →
  RenderRegion._manual_chunks r' = RenderRegion._manual_chunks r →
  region_inv r → region_inv r'.
Proof. unfold region_inv. by intros -> ->. Qed.

Lemma region_inv_merged r r' :
  RenderRegion._chunks r' = RenderRegion._chunks r →
  RenderRegion._manual_chunks r' = [] →
  region_inv r → region_inv r'.
Proof.
  unfold region_inv. intros -> -> (? & ? & _). split_and!; [done..|constructor].
Qed.

Lemma region_step_inv c r g :
  keeps_region c = true → region_inv r →
  ∃ r' g', region_step r c g = Ok (r', g') ∧ region_inv r'.
Proof.
  intros Hc Hinv. destruct c as [u| |t|]; simpl; [| | |done].
  - eexists _, _. split; [reflexivity|]. by apply region_inv_add.
  - destruct (merge_steps r g (region_inv_mergeable r Hinv))
      as (r' & evs & g' & [Hrun _] & _ & _ & _ & Hchunks & Hpending & _).
    exists r', g'. split; [done|]. by eapply region_inv_merged.
  - destruct (draw_steps t r g) as (r' & evs & g' & [Hrun _] & Hsame & _).
    destruct Hsame as (_ & _ & _ & Hchunks & Hpending & _).
    exists r', g'. split; [done|]. by eapply region_inv_content.
Qed.

Lemma region_run_inv calls r g :
  forallb keeps_region calls = true → region_inv r →
  ∃ r' g', region_run calls r g = Ok (r', g') ∧ region_inv r'.
Proof.
  revert r g. induction calls as [|c calls IH]; intros r g Hcalls Hinv; simpl.
  - by exists r, g.
  - simpl in Hcalls. apply andb_prop in Hcalls as [Hc Hcalls].
    destruct (region_step_inv c r g Hc Hinv) as (r1 & g1 & Hstep & Hinv1).
    unfold gl_bind. rewrite Hstep. by apply IH.
Qed.

(** ** Loops over the region map *)

Lemma regions_rel_keys R d d' : regions_rel R d d' → dict_keys d' = dict_keys d.
Proof.
  unfold dict_keys. induction 1 as [|kr kr' d d' [Hk _] _ IH]; csimpl; [done|].
  by rewrite Hk, IH.
Qed.

Lemma regions_rel_get R d d' k :
  regions_rel R d d' → option_Forall2 R (dict_get k d) (dict_get k d').
Proof.
  induction 1 as [|[k1 r] [k1' r'] d d' [Hk Hr] _ IH]; simpl; [constructor|].
  simpl in Hk, Hr. subst k1'.
  destruct (decide (k = k1)); [by constructor | done].
Qed.

Lemma regions_rel_Forall (R : RenderRegion.t → RenderRegion.t → Prop)
    (P : (Z * Z) → RenderRegion.t → Prop) d d' :
  (∀ k r r', P k r → R r r' → P k r') →
  regions_rel R d d' → Forall (λ kr, P kr.1 kr.2) d → Forall (λ kr, P kr.1 kr.2) d'.
Proof.
  intros HP. induction 1 as [|kr kr' d d' [Hk Hr] _ IH]; [done|].
  intros [Hkr Hd]%Forall_cons. constructor; [|auto].
  rewrite Hk. by eapply HP.
Qed.

Lemma draw_all_steps t d g :
  ∃ d' evs g',
    steps (for_values (RenderRegion.draw t) d) g d' evs g'
    ∧ regions_rel same_content d d'
    ∧ drawn_chunks evs = chunk_id <$> all_pending d
    ∧ unloaded_chunks evs = []
    ∧ deleted_vertex_arrays evs = []
    ∧ Forall (λ data, data = []) (uploads evs).
Proof.
  revert g. induction d as [|[k r] d IH]; intros g.
  - exists [], [], g. split_and!; try done; [apply steps_ret | constructor].
  - destruct (draw_steps t r g)
      as (r' & evs1 & g1 & Hrun1 & Hsame & _ & Hd1 & Hu1 & Hdel1 & Hup1).
    destruct (IH g1) as (d' & evs2 & g2 & Hrun2 & Hrel & Hd2 & Hu2 & Hdel2 & Hup2).
    exists ((k, r') :: d'), (evs1 ++ evs2), g2. split_and!.
    + cbn [for_values]. eapply steps_bind; [exact Hrun1|].
      rewrite <- (app_nil_r evs2). eapply steps_bind; [exact Hrun2|].
      apply steps_ret.
    + by constructor.
    + rewrite drawn_chunks_app, Hd1, Hd2. unfold all_pending. csimpl.
      by rewrite fmap_app.
    + by rewrite unloaded_chunks_app, Hu1, Hu2.
    + by rewrite deleted_vertex_arrays_app, Hdel1, Hdel2.
    + rewrite uploads_app. by apply Forall_app.
Qed.

Lemma all_pending_elem d k r u :
  dict_get k d = Some r → u ∈ RenderRegion._manual_chunks r → u ∈ all_pending d.
Proof.
  intros Hget%dict_get_Some_elem Hu. unfold all_pending, dict_values.
  apply list_elem_of_bind. exists r. split; [done|].
  apply list_elem_of_fmap. by exists (k, r).
Qed.

(** ** Units added to a region *)

Lemma foldl_add_pending r us :
  RenderRegion._manual_chunks (foldl RenderRegion.add_render_chunk r us)
  = RenderRegion._manual_chunks r ++ us.
Proof.
  revert r. induction us as [|u us IH]; intros r; simpl.
  - by rewrite app_nil_r.
  - rewrite IH. simpl. by rewrite <- app_assoc.
Qed.

Lemma foldl_add_chunks r us c :
  dict_get c (RenderRegion._chunks (foldl RenderRegion.add_render_chunk r us))
  = match last (filter (λ v, chunk_coords v = c) us) with
    | Some u => Some u
    | None => dict_get c (RenderRegion._chunks r)
    end.
Proof.
  revert r. induction us as [|u us IH] using rev_ind; intros r; [done|].
  rewrite foldl_snoc, filter_app. simpl.
  destruct (decide (chunk_coords u = c)) as [<-|Hne].
  - rewrite (filter_cons_True _ u []) by done. cbn [filter list_filter].
    by rewrite last_snoc, dict_get_set_eq.
  - rewrite (filter_cons_False _ u []) by done. cbn [filter list_filter].
    by rewrite app_nil_r, dict_get_set_ne, IH.
Qed.

Lemma foldl_add_fields r us :
  RenderRegion.rx (foldl RenderRegion.add_render_chunk r us) = RenderRegion.rx r
  ∧ RenderRegion.rz (foldl RenderRegion.add_render_chunk r us) = RenderRegion.rz r
  ∧ RenderRegion._vao (foldl RenderRegion.add_render_chunk r us) = RenderRegion._vao r
  ∧ RenderRegion._draw_count (foldl RenderRegion.add_render_chunk r us)
    = RenderRegion._draw_count r.
Proof.
  revert r. induction us as [|u us IH]; intros r; simpl; [done|].
  destruct (IH (RenderRegion.add_render_chunk r u)) as (-> & -> & -> & ->). done.
Qed.

Lemma foldl_add_contains r us c :
  RenderRegion.__contains__ (foldl RenderRegion.add_render_chunk r us) c
  = bool_decide (c ∈ chunk_coords <$> us) || RenderRegion.__contains__ r c.
Proof.
  unfold RenderRegion.__contains__, dict_mem. rewrite foldl_add_chunks.
  destruct (last _) as [u|] eqn:Hlast.
  - apply last_Some_elem_of, list_elem_of_filter in Hlast as [Hc Hu].
    rewrite bool_decide_eq_true_2; [done|].
    apply list_elem_of_fmap. by exists u.
  - apply last_None in Hlast. rewrite bool_decide_eq_false_2; [done|].
    intros (u & -> & Hu)%list_elem_of_fmap.
    assert (u ∈ filter (λ v, chunk_coords v = chunk_coords u) us) as Hin
      by by apply list_elem_of_filter.
    rewrite Hlast in Hin. by apply elem_of_nil in Hin.
Qed.

(** ** Regions in their place *)

Lemma region_placed_init region_size k identifier :
  region_placed region_size k (RenderRegion.__init__ k.1 k.2 region_size identifier).
Proof.
  split_and!; simpl; [by destruct k | constructor | apply region_inv_init].
Qed.

Lemma region_placed_add region_size k r u :
  region_of region_size (chunk_coords u) = k →
  region_placed region_size k r →
  region_placed region_size k (RenderRegion.add_render_chunk r u).
Proof.
  intros Hu (Hk & Hsquare & Hinv). split_and!; simpl.
  - done.
  - by apply dict_set_Forall.
  - by apply region_inv_add.
Qed.

Lemma region_placed_content region_size k r r' :
  RenderRegion.rx r' = RenderRegion.rx r →
  RenderRegion.rz r' = RenderRegion.rz r →
  RenderRegion._chunks r' = RenderRegion._chunks r →
  RenderRegion._manual_chunks r' = RenderRegion._manual_chunks r →
  region_placed region_size k r → region_placed region_size k r'.
Proof.
  intros Hx Hz Hc Hm (Hk & Hsquare & Hinv). unfold region_placed.
  rewrite Hx, Hz, Hc. split_and!; [done..|]. by eapply region_inv_content.
Qed.

Lemma region_placed_same region_size k r r' :
  region_placed region_size k r → same_content r r' → region_placed region_size k r'.
Proof.
  intros Hp (_ & Hx & Hz & Hc & Hm & _). by eapply region_placed_content.
Qed.

Lemma region_placed_merged region_size k r r' :
  RenderRegion.rx r' = RenderRegion.rx r →
  RenderRegion.rz r' = RenderRegion.rz r →
  RenderRegion._chunks r' = RenderRegion._chunks r →
  RenderRegion._manual_chunks r' = [] →
  region_placed region_size k r → region_placed region_size k r'.
Proof.
  intros Hx Hz Hc Hm (Hk & Hsquare & Hinv). unfold region_placed.
  rewrite Hx, Hz, Hc. split_and!; [done..|]. by eapply region_inv_merged.
Qed.

(** ** The drain *)

Lemma region_coords_Ok cm cx cz :
  ChunkManager.region_size cm ≠ 0 →
  ChunkManager.region_coords cm cx cz
  = Ok (region_of (ChunkManager.region_size cm) (cx, cz)).
Proof. intros Hrs. unfold ChunkManager.region_coords. by rewrite decide_False. Qed.

Lemma merge_chunk_temp_loop_spec queue :
  ∀ cm,
    ChunkManager._chunk_temp cm = queue →
    ChunkManager.region_size cm ≠ 0 →
    ∃ cm',
      ChunkManager._merge_chunk_temp_loop (length queue) cm = Ok cm'
      ∧ ChunkManager.identifier cm' = ChunkManager.identifier cm
      ∧ ChunkManager.region_size cm' = ChunkManager.region_size cm
      ∧ ChunkManager._chunk_temp cm' = []
      ∧ ChunkManager._chunk_temp_set cm' = ChunkManager._chunk_temp_set cm
      ∧ (∀ k, dict_get k (ChunkManager._regions cm')
              = region_after (ChunkManager.identifier cm) (ChunkManager.region_size cm)
                  k queue (dict_get k (ChunkManager._regions cm)))
      ∧ (NoDup (dict_keys (ChunkManager._regions cm)) →
         NoDup (dict_keys (ChunkManager._regions cm')))
      ∧ (Forall (λ kr, region_placed (ChunkManager.region_size cm) kr.1 kr.2)
           (ChunkManager._regions cm) →
         Forall (λ kr, region_placed (ChunkManager.region_size cm) kr.1 kr.2)
           (ChunkManager._regions cm')).
Proof.
  induction queue as [|u queue IH]; intros cm Hq Hrs.
  - exists cm. split_and!; done.
  - cbn [length ChunkManager._merge_chunk_temp_loop]. rewrite Hq.
    rewrite region_coords_Ok by done. cbn [res_bind].
    set (k0 := region_of _ _).
    set (fresh := RenderRegion.__init__ _ _ _ _).
    set (regions := ChunkManager._regions cm).
    set (r0 := default fresh (dict_get k0 regions)).
    set (regions1 := if negb (dict_mem k0 regions)
                     then dict_set k0 fresh regions else regions).
    assert (dict_get k0 regions1 = Some r0) as Hget0.
    { unfold regions1, r0, dict_mem.
      destruct (dict_get k0 regions) as [r|] eqn:Hr; simpl; [done|].
      apply dict_get_set_eq. }
    assert (Hother : ∀ k, k ≠ k0 → dict_get k regions1 = dict_get k regions).
    { intros k Hk. unfold regions1. destruct (negb _); [|done].
      by apply dict_get_set_ne. }
    set (cm2 := ChunkManager.set_regions
                  (dict_set k0 (RenderRegion.add_render_chunk r0 u) regions1)
                  (ChunkManager.set_chunk_temp queue cm)).
    destruct (IH cm2) as (cm' & Hrun & Hid & Hsize & Hq' & Hset & Hregions & Hnd & Hpl);
      [done..|].
    exists cm'. split_and!; try done.
    + rewrite <- Hrun.
      change (ChunkManager._regions (ChunkManager.set_chunk_temp queue cm))
        with regions.
      unfold cm2, regions1, r0, dict_item, dict_mem.
      destruct (dict_get k0 regions) as [r|] eqn:Hr;
        cbn [negb default ChunkManager._regions ChunkManager.set_regions
             ChunkManager.set_chunk_temp];
        fold regions; rewrite ?Hr, ?dict_get_set_eq; reflexivity.
    + intros k. rewrite Hregions. unfold cm2. simpl.
      unfold region_after, routed. fold k0.
      destruct (decide (k = k0)) as [->|Hk].
      * rewrite dict_get_set_eq, filter_cons_True by done. fold r0.
        destruct (filter _ queue); done.
      * assert (k0 ≠ k) as Hk' by congruence.
        rewrite (dict_get_set_ne k0 k) by exact Hk'.
        rewrite (Hother k Hk).
        rewrite filter_cons_False by exact Hk'. done.
    + intros Hnd0. apply Hnd. unfold cm2. simpl. apply dict_set_NoDup.
      unfold regions1. destruct (negb _); [|done]. by apply dict_set_NoDup.
    + intros Hpl0. apply Hpl. unfold cm2. simpl.
      assert (Forall (λ kr, region_placed (ChunkManager.region_size cm) kr.1 kr.2)
                regions1) as Hpl1.
      { unfold regions1. destruct (negb _); [|done].
        apply dict_set_Forall; [|done]. apply region_placed_init. }
      apply dict_set_Forall; [|done]. simpl.
      apply region_placed_add; [done|].
      apply dict_get_Some_elem in Hget0.
      rewrite Forall_forall in Hpl1. apply (Hpl1 (k0, r0) Hget0).
Qed.

Lemma merge_chunk_temp_spec cm :
  ChunkManager.region_size cm ≠ 0 →
  ∃ cm',
    ChunkManager._merge_chunk_temp cm = Ok cm'
    ∧ ChunkManager.identifier cm' = ChunkManager.identifier cm
    ∧ ChunkManager.region_size cm' = ChunkManager.region_size cm
    ∧ ChunkManager._chunk_temp cm' = []
    ∧ ChunkManager._chunk_temp_set cm' = ∅
    ∧ (∀ k, dict_get k (ChunkManager._regions cm')
            = region_after (ChunkManager.identifier cm) (ChunkManager.region_size cm)
                k (ChunkManager._chunk_temp cm) (dict_get k (ChunkManager._regions cm)))
    ∧ (manager_inv cm → manager_inv cm').
Proof.
  intros Hrs.
  destruct (merge_chunk_temp_loop_spec (ChunkManager._chunk_temp cm) cm eq_refl Hrs)
    as (cm1 & Hrun & Hid & Hsize & Hq & Hset & Hregions & Hnd & Hpl).
  exists (ChunkManager.set_chunk_temp_set ∅ cm1).
  unfold ChunkManager._merge_chunk_temp. rewrite Hrun. split_and!; try done.
  intros (_ & Hnd0 & Hpl0 & _). split_and!; simpl.
  - by rewrite Hsize.
  - auto.
  - rewrite Hsize. auto.
  - rewrite Hq. constructor.
Qed.

(** ** ChunkManager.draw *)

Lemma draw_spec cm t g :
  ChunkManager.region_size cm ≠ 0 →
  ∃ regions1 cm' evs g',
    steps (for_values (RenderRegion.draw t) (ChunkManager._regions cm)) g regions1 evs g'
    ∧ steps (ChunkManager.draw cm t) g cm' evs g'
    ∧ regions_rel same_content (ChunkManager._regions cm) regions1
    ∧ ChunkManager.identifier cm' = ChunkManager.identifier cm
    ∧ ChunkManager.region_size cm' = ChunkManager.region_size cm
    ∧ ChunkManager._chunk_temp cm' = []
    ∧ ChunkManager._chunk_temp_set cm' = ∅
    ∧ (∀ k, dict_get k (ChunkManager._regions cm')
            = region_after (ChunkManager.identifier cm) (ChunkManager.region_size cm)
                k (ChunkManager._chunk_temp cm) (dict_get k regions1))
    ∧ drawn_chunks evs = chunk_id <$> all_pending (ChunkManager._regions cm)
    ∧ unloaded_chunks evs = []
    ∧ deleted_vertex_arrays evs = []
    ∧ Forall (λ data, data = []) (uploads evs)
    ∧ (manager_inv cm → manager_inv cm').
Proof.
  intros Hrs.
  destruct (draw_all_steps t (ChunkManager._regions cm) g)
    as (regions1 & evs & g' & Hrun & Hrel & Hd & Hu & Hdel & Hup).
  destruct (merge_chunk_temp_spec (ChunkManager.set_regions regions1 cm) Hrs)
    as (cm' & Hdrain & Hid & Hsize & Hq & Hset & Hregions & Hinv).
  exists regions1, cm', evs, g'. split_and!; try done.
  - destruct Hrun as [Hrun Hlog]. split; [|done].
    unfold ChunkManager.draw, gl_bind. rewrite Hrun. unfold gl_lift.
    by rewrite Hdrain.
  - intros (_ & Hnd & Hpl & Hmirror). apply Hinv. split_and!; simpl; [done| | |done].
    + by rewrite (regions_rel_keys _ _ _ Hrel).
    + eapply (regions_rel_Forall same_content
                (region_placed (ChunkManager.region_size cm))); [|done..].
      intros k r r'. apply region_placed_same.
Qed.

(** ** ChunkManager.unload *)

Lemma box_test min_rx min_rz max_rx max_rz rx rz :
  (min_rx <=? rx) && (rx <=? max_rx) && ((min_rz <=? rz) && (rz <=? max_rz))
  = bool_decide (in_box (min_rx, min_rz) (max_rx, max_rz) (rx, rz)).
Proof.
  unfold in_box. simpl.
  destruct (Z.leb_spec min_rx rx), (Z.leb_spec rx max_rx),
    (Z.leb_spec min_rz rz), (Z.leb_spec rz max_rz); simpl;
    first [ by rewrite bool_decide_eq_true_2 by lia
          | by rewrite bool_decide_eq_false_2 by lia ].
Qed.

Lemma unloaded_by_app evs1 evs2 r :
  unloaded_by evs1 r ∨ unloaded_by evs2 r → unloaded_by (evs1 ++ evs2) r.
Proof.
  unfold unloaded_by. rewrite unloaded_chunks_app, deleted_vertex_arrays_app.
  intros [[H1 H2]|[H1 H2]]; split; intros ? ?; apply elem_of_app; auto.
Qed.

Lemma unload_unloaded_by r g r' evs g' :
  steps (RenderRegion.unload r) g r' evs g' → unloaded_by evs r.
Proof.
  destruct (unload_steps r g) as (r1 & g1 & [Hrun Hlog] & _).
  intros [Hrun' Hlog']. rewrite Hrun in Hrun'. injection Hrun' as <- <-.
  rewrite Hlog in Hlog'. apply app_inv_head in Hlog'. subst evs. split.
  - intros u Hu. rewrite unloaded_chunks_app, unloaded_unload_calls.
    apply elem_of_app. right. by apply list_elem_of_fmap_2.
  - intros vao ->. rewrite deleted_vertex_arrays_app. apply elem_of_app. left.
    simpl. left.
Qed.

Lemma unload_loop_spec min_rx min_rz max_rx max_rz d g :
  Forall (λ kr, (RenderRegion.rx kr.2, RenderRegion.rz kr.2) = kr.1 ∧ mergeable kr.2) d →
  ∃ d' evs g',
    steps (ChunkManager.unload_loop min_rx min_rz max_rx max_rz d) g
      (d', (filter (λ kr, ¬ in_box (min_rx, min_rz) (max_rx, max_rz) kr.1) d).*1)
      evs g'
    ∧ regions_rel (settled (min_rx, min_rz) (max_rx, max_rz)) d d'
    ∧ drawn_chunks evs = []
    ∧ (∀ kr, kr ∈ d → ¬ in_box (min_rx, min_rz) (max_rx, max_rz) kr.1 →
             unloaded_by evs kr.2).
Proof.
  revert g. induction d as [|[k r] d IH]; intros g Hd.
  - exists [], [], g. split_and!; try done; [apply steps_ret | constructor |].
    intros kr Hin. by apply elem_of_nil in Hin.
  - apply Forall_cons in Hd as [[Hk Hmergeable] Hd]. simpl in Hk, Hmergeable.
    cbn [ChunkManager.unload_loop]. rewrite box_test. subst k.
    destruct (decide (in_box (min_rx, min_rz) (max_rx, max_rz)
                        (RenderRegion.rx r, RenderRegion.rz r))) as [Hin|Hout].
    + rewrite bool_decide_eq_true_2 by done.
      rewrite filter_cons_False by (simpl; tauto).
      destruct (merge_steps r g Hmergeable)
        as (r' & evs1 & g1 & Hrun1 & _ & Hx & Hz & Hc & Hm & _ & _ & Hd1 & _).
      destruct (IH g1 Hd) as (d' & evs2 & g2 & Hrun2 & Hrel & Hd2 & Hun).
      exists ((RenderRegion.rx r, RenderRegion.rz r, r') :: d'), (evs1 ++ evs2), g2.
      split_and!.
      * eapply steps_bind; [exact Hrun1|].
        rewrite <- (app_nil_r evs2). eapply steps_bind; [exact Hrun2|].
        apply steps_ret.
      * constructor; [|done]. by split_and!.
      * by rewrite drawn_chunks_app, Hd1, Hd2.
      * intros kr [->|Hkr]%elem_of_cons Hbox; [done|].
        apply unloaded_by_app. right. by apply Hun.
    + rewrite bool_decide_eq_false_2 by done.
      rewrite filter_cons_True by done.
      destruct (unload_steps r g)
        as (r' & g1 & Hrun1 & Hx & Hz & _).
      destruct (IH g1 Hd) as (d' & evs2 & g2 & Hrun2 & Hrel & Hd2 & Hun).
      eexists ((RenderRegion.rx r, RenderRegion.rz r, r') :: d'), (_ ++ evs2), g2.
      split_and!.
      * eapply steps_bind; [exact Hrun1|].
        rewrite <- (app_nil_r evs2). eapply steps_bind; [exact Hrun2|].
        csimpl. rewrite Hx, Hz. apply steps_ret.
      * constructor; [|done]. by split_and!.
      * rewrite !drawn_chunks_app, drawn_unload_calls, Hd2.
        by destruct (RenderRegion._vao r).
      * intros kr [->|Hkr]%elem_of_cons Hbox; apply unloaded_by_app.
        -- left. by eapply unload_unloaded_by.
        -- right. by apply Hun.
Qed.

Lemma delete_loop_skip dels k (r : RenderRegion.t) d :
  k ∉ dels →
  ChunkManager.delete_loop dels ((k, r) :: d)
  = res_bind (ChunkManager.delete_loop dels d) (λ d', Ok ((k, r) :: d')).
Proof.
  revert d. induction dels as [|k1 dels IH]; intros d Hk; [done|].
  apply not_elem_of_cons in Hk as [Hk1 Hk]. simpl.
  rewrite decide_False by done.
  destruct (dict_del k1 d) as [d1|e]; simpl; [by apply IH | done].
Qed.

Lemma delete_loop_filter (P : Z * Z → Prop) `{∀ k, Decision (P k)}
    (d : list ((Z * Z) * RenderRegion.t)) :
  NoDup (dict_keys d) →
  ChunkManager.delete_loop (filter (λ kr, ¬ P kr.1) d).*1 d
  = Ok (filter (λ kr, P kr.1) d).
Proof.
  unfold dict_keys. induction d as [|[k r] d IH]; csimpl; [done|].
  intros [Hk Hnd]%NoDup_cons. destruct (decide (P k)) as [HP|HP].
  - rewrite filter_cons_False by (simpl; tauto).
    rewrite filter_cons_True by done.
    rewrite delete_loop_skip; [by rewrite IH|].
    intros ([k' r'] & -> & [_ Hin]%list_elem_of_filter)%list_elem_of_fmap.
    apply Hk. apply list_elem_of_fmap. by exists (k', r').
  - rewrite filter_cons_True by exact HP.
    rewrite filter_cons_False by exact HP. csimpl.
    rewrite decide_True by done. by apply IH.
Qed.

Lemma dict_get_filter (P : Z * Z → Prop) `{∀ k, Decision (P k)}
    (d : list ((Z * Z) * RenderRegion.t)) k :
  dict_get k (filter (λ kr, P kr.1) d) = if decide (P k) then dict_get k d else None.
Proof.
  induction d as [|[k1 r] d IH]; simpl.
  - by destruct (decide (P k)).
  - destruct (decide (P k1)) as [HP|HP].
    + rewrite filter_cons_True by done. simpl.
      destruct (decide (k = k1)) as [->|Hne]; [|done].
      by rewrite decide_True.
    + rewrite filter_cons_False by done. rewrite IH.
      destruct (decide (k = k1)) as [->|Hne]; [|done].
      by repeat case_decide.
Qed.

Lemma regions_rel_filter_keys R (P : Z * Z → Prop) `{∀ k, Decision (P k)} d d' :
  regions_rel R d d' →
  (filter (λ kr, P kr.1) d').*1 = (filter (λ kr, P kr.1) d).*1.
Proof.
  induction 1 as [|kr kr' d d' [Hk _] _ IH]; [done|].
  destruct (decide (P kr.1)) as [HP|HP].
  - rewrite !filter_cons_True by (by rewrite ?Hk). csimpl. by rewrite Hk, IH.
  - by rewrite !filter_cons_False by (by rewrite ?Hk).
Qed.

Lemma settled_placed region_size min_r max_r d d' :
  regions_rel (settled min_r max_r) d d' →
  Forall (λ kr, region_placed region_size kr.1 kr.2) d →
  Forall (λ kr, region_placed region_size kr.1 kr.2)
    (filter (λ kr, in_box min_r max_r kr.1) d').
Proof.
  induction 1 as [|[k r] [k' r'] d d' [Hk Hsettled] _ IH]; [constructor|].
  intros [Hpl Hd]%Forall_cons. simpl in Hk, Hsettled, Hpl. subst k'.
  destruct (decide (in_box min_r max_r k)) as [Hin|Hout].
  - rewrite filter_cons_True by done. constructor; [|auto]. simpl.
    destruct Hsettled as (Hx & Hz & Hmerged).
    destruct Hpl as (Hkey & Hpl). rewrite Hkey in Hmerged.
    destruct (Hmerged Hin) as [Hc Hm].
    by apply (region_placed_merged region_size k r r').
  - rewrite filter_cons_False by done. auto.
Qed.

Lemma filter_keys_NoDup (P : Z * Z → Prop) `{∀ k, Decision (P k)}
    (d : list ((Z * Z) * RenderRegion.t)) :
  NoDup (dict_keys d) → NoDup (dict_keys (filter (λ kr, P kr.1) d)).
Proof.
  unfold dict_keys. induction d as [|[k r] d IH]; csimpl; [done|].
  intros [Hk Hnd]%NoDup_cons. destruct (decide (P k)) as [HP|HP].
  - rewrite filter_cons_True by done. csimpl. apply NoDup_cons. split; [|auto].
    intros ([k' r'] & -> & [_ Hin]%list_elem_of_filter)%list_elem_of_fmap.
    apply Hk. apply list_elem_of_fmap. by exists (k', r').
  - rewrite filter_cons_False by done. auto.
Qed.

Lemma manager_inv_loop_ready cm :
  manager_inv cm →
  Forall (λ kr, (RenderRegion.rx kr.2, RenderRegion.rz kr.2) = kr.1 ∧ mergeable kr.2)
    (ChunkManager._regions cm).
Proof.
  intros (_ & _ & Hpl & _). eapply Forall_impl; [exact Hpl|].
  intros [k r] (Hk & _ & Hinv). split; [done|]. by apply region_inv_mergeable.
Qed.

Lemma unload_area_spec cm x0 z0 x1 z1 g :
  manager_inv cm →
  let min_r := region_of (ChunkManager.region_size cm) (x0, z0) in
  let max_r := region_of (ChunkManager.region_size cm) (x1, z1) in
  ∃ d' cm' evs g',
    steps (ChunkManager.unload cm (Some (x0, z0, x1, z1))) g cm' evs g'
    ∧ regions_rel (settled min_r max_r) (ChunkManager._regions cm) d'
    ∧ ChunkManager._regions cm' = filter (λ kr, in_box min_r max_r kr.1) d'
    ∧ ChunkManager.identifier cm' = ChunkManager.identifier cm
    ∧ ChunkManager.region_size cm' = ChunkManager.region_size cm
    ∧ ChunkManager._chunk_temp cm' = ChunkManager._chunk_temp cm
    ∧ ChunkManager._chunk_temp_set cm' = ChunkManager._chunk_temp_set cm
    ∧ drawn_chunks evs = []
    ∧ (∀ kr, kr ∈ ChunkManager._regions cm → ¬ in_box min_r max_r kr.1 →
             unloaded_by evs kr.2)
    ∧ manager_inv cm'.
Proof.
  intros Hinv min_r max_r.
  pose proof (manager_inv_loop_ready cm Hinv) as Hready.
  destruct Hinv as (Hrs & Hnd & Hpl & Hmirror).
  destruct (unload_loop_spec min_r.1 min_r.2 max_r.1 max_r.2
              (ChunkManager._regions cm) g Hready)
    as (d' & evs & g' & [Hrun Hlog] & Hrel & Hdrawn & Hun).
  change (min_r.1, min_r.2) with min_r in *.
  change (max_r.1, max_r.2) with max_r in *.
  assert (ChunkManager.delete_loop
            (filter (λ kr, ¬ in_box min_r max_r kr.1) (ChunkManager._regions cm)).*1 d'
          = Ok (filter (λ kr, in_box min_r max_r kr.1) d')) as Hdel.
  { pose proof (regions_rel_filter_keys _ (λ k, ¬ in_box min_r max_r k) _ _ Hrel)
      as Hkeys.
    cbn beta in Hkeys. rewrite <- Hkeys.
    apply (delete_loop_filter (in_box min_r max_r)).
    by rewrite (regions_rel_keys _ _ _ Hrel). }
  exists d', (ChunkManager.set_regions (filter (λ kr, in_box min_r max_r kr.1) d') cm),
    evs, g'.
  split_and!; try done.
  - split; [|done]. unfold ChunkManager.unload, gl_bind.
    rewrite !region_coords_Ok by done. unfold gl_lift.
    change (region_of (ChunkManager.region_size cm) (x0, z0)) with (min_r.1, min_r.2).
    change (region_of (ChunkManager.region_size cm) (x1, z1)) with (max_r.1, max_r.2).
    cbn beta iota. rewrite Hrun. cbn beta iota. by rewrite Hdel.
  - split_and!; simpl; [done| | |done].
    + apply (filter_keys_NoDup (in_box min_r max_r)).
      by rewrite (regions_rel_keys _ _ _ Hrel).
    + by eapply settled_placed.
Qed.

Lemma discard_loop_all queue :
  ChunkManager.discard_loop (length queue) queue = Ok [].
Proof. induction queue as [|u queue IH]; simpl; done. Qed.

Lemma unload_all_steps (d : list ((Z * Z) * RenderRegion.t)) g :
  ∃ d' evs g',
    steps (for_values RenderRegion.unload d) g d' evs g'
    ∧ drawn_chunks evs = []
    ∧ uploads evs = []
    ∧ (∀ kr, kr ∈ d → unloaded_by evs kr.2).
Proof.
  revert g. induction d as [|[k r] d IH]; intros g.
  - exists [], [], g. split_and!; try done; [apply steps_ret|].
    intros kr Hin. by apply elem_of_nil in Hin.
  - destruct (unload_steps r g) as (r' & g1 & Hrun1 & _).
    destruct (IH g1) as (d' & evs2 & g2 & Hrun2 & Hd2 & Hup2 & Hun).
    eexists ((k, r') :: d'), (_ ++ evs2), g2. split_and!.
    + cbn [for_values]. eapply steps_bind; [exact Hrun1|].
      rewrite <- (app_nil_r evs2). eapply steps_bind; [exact Hrun2|].
      apply steps_ret.
    + rewrite !drawn_chunks_app, drawn_unload_calls, Hd2.
      by destruct (RenderRegion._vao r).
    + rewrite !uploads_app, uploads_unload_calls, Hup2.
      by destruct (RenderRegion._vao r).
    + intros kr [->|Hkr]%elem_of_cons; apply unloaded_by_app.
      * left. by eapply unload_unloaded_by.
      * right. by apply Hun.
Qed.

Lemma unload_all_spec cm g :
  ∃ cm' evs g',
    steps (ChunkManager.unload cm None) g cm' evs g'
    ∧ ChunkManager._regions cm' = []
    ∧ ChunkManager._chunk_temp cm' = []
    ∧ ChunkManager._chunk_temp_set cm' = ∅
    ∧ ChunkManager.region_size cm' = ChunkManager.region_size cm
    ∧ drawn_chunks evs = []
    ∧ (∀ kr, kr ∈ ChunkManager._regions cm → unloaded_by evs kr.2).
Proof.
  destruct (unload_all_steps (ChunkManager._regions cm) g)
    as (d' & evs & g' & [Hrun Hlog] & Hd & _ & Hun).
  exists (ChunkManager.set_regions []
            (ChunkManager.set_regions d'
               (ChunkManager.set_chunk_temp_set ∅
                  (ChunkManager.set_chunk_temp [] cm)))), evs, g'.
  split_and!; [split|..]; try done.
  unfold ChunkManager.unload, gl_bind, gl_lift.
  rewrite discard_loop_all. simpl. rewrite Hrun. reflexivity.
Qed.

(** * The claims *)

(** ** C5: merging twice *)

(** C5. Calling [merge] twice in a row, with no [add_render_chunk] in
    between: the second call returns the region as the first left it
    (merged buffer, draw count and all) and leaves the OpenGL state as it
    was, so it makes no call and uploads nothing; the pending list is empty
    and the second [merge] has nothing to do. *)
Theorem merge_twice r g r1 g1 :
  RenderRegion.merge r g = Ok (r1, g1) →
  RenderRegion.merge r1 g1 = Ok (r1, g1)
  ∧ RenderRegion._manual_chunks r1 = [].
Proof.
  intros Hrun.
  destruct (merge_steps r g (merge_Ok_mergeable r g r1 g1 Hrun))
    as (r' & evs & g' & [Hrun' _] & _ & _ & _ & _ & Hpending & Hvao & _).
  rewrite Hrun in Hrun'. injection Hrun' as <- <-. split.
  - by apply merge_settled.
  - done.
Qed.

Lemma merge_twice_witness :
  ∃ r1 g1,
    RenderRegion.merge region_a gl_init = Ok (r1, g1)
    ∧ RenderRegion.merge r1 g1 = Ok (r1, g1)
    ∧ RenderRegion._manual_chunks r1 = [].
Proof.
  eexists _, _. split; [reflexivity|].
  apply (merge_twice region_a gl_init). reflexivity.
Defined.

(** ** C3: unloading a region *)

(** C3, as amended.  [unload] never fails; it deletes the vertex array if
    there is one and resets the handle, then calls [unload] on every unit of
    the owned map, in map order, and empties the owned map.  These are all
    the calls it makes. *)
Theorem unload_releases_owned r g :
  ∃ r' g',
    RenderRegion.unload r g = Ok (r', g')
    ∧ gl_log g' = gl_log g
                  ++ match RenderRegion._vao r with
                     | Some vao => [glDeleteVertexArrays (Some vao)]
                     | None => []
                     end
                  ++ unload_calls (dict_values (RenderRegion._chunks r))
    ∧ RenderRegion._vao r' = None
    ∧ RenderRegion._chunks r' = [].
Proof.
  destruct (unload_steps r g) as (r' & g' & [Hrun Hlog] & _ & _ & Hc & Hvao & _).
  exists r', g'. split_and!; try done.
Qed.

(** C3, as stated, fails: a region that was drawn once with one pending
    unit keeps, after [unload], its pending list and its vertex buffer; and
    a pending unit replaced before any merge is not released by [unload]. *)
Lemma unload_not_fully_cleared :
  (∃ r g r' g',
     region_run [addUnit unit_a; draw camera] fresh_region gl_init = Ok (r, g)
     ∧ RenderRegion.unload r g = Ok (r', g')
     ∧ RenderRegion._manual_chunks r' = [unit_a]
     ∧ RenderRegion._vbo r' = Some 2%nat
     ∧ ¬ fully_cleared r')
  ∧ (∃ r g r' g',
       region_run [addUnit unit_a; addUnit unit_b] fresh_region gl_init = Ok (r, g)
       ∧ unit_a ∈ RenderRegion._manual_chunks r
       ∧ RenderRegion.unload r g = Ok (r', g')
       ∧ unloaded_chunks (gl_log g') = [chunk_id unit_b]).
Proof.
  split.
  - eexists _, _, _, _. split_and!; try reflexivity.
    intros (_ & Hvbo & _). discriminate Hvbo.
  - eexists _, _, _, _. split_and!; try reflexivity.
    apply list_elem_of_here.
Qed.

(** ** C2: pending units and the owned map *)

(** C2, as amended.  Any sequence of [add_render_chunk], [merge] and [draw]
    on a new region runs without error and leaves every pending unit's
    coordinate in the owned map, mapped to the pending unit that was added
    last for that coordinate. *)
Theorem pending_owned_by_last calls rx rz region_size identifier g :
  forallb keeps_region calls = true →
  ∃ r g',
    region_run calls (RenderRegion.__init__ rx rz region_size identifier) g = Ok (r, g')
    ∧ ∀ u, u ∈ RenderRegion._manual_chunks r →
           is_Some (dict_get (chunk_coords u) (RenderRegion._chunks r))
           ∧ dict_get (chunk_coords u) (RenderRegion._chunks r)
             = last_pending (RenderRegion._manual_chunks r) u.
Proof.
  intros Hcalls.
  destruct (region_run_inv calls _ g Hcalls
              (region_inv_init rx rz region_size identifier))
    as (r & g' & Hrun & _ & _ & Hp).
  exists r, g'. split; [done|]. intros u Hu.
  rewrite Forall_forall in Hp. rewrite (Hp u Hu). split; [|done].
  by apply last_pending_elem.
Qed.

Lemma pending_owned_by_last_witness :
  forallb keeps_region
    [addUnit unit_a; draw camera; addUnit unit_b; merge; addUnit unit_c] = true
  ∧ ∃ r g',
      region_run [addUnit unit_a; draw camera; addUnit unit_b; merge; addUnit unit_c]
        (RenderRegion.__init__ 0 0 16 "demo") gl_init = Ok (r, g')
      ∧ ∀ u, u ∈ RenderRegion._manual_chunks r →
             is_Some (dict_get (chunk_coords u) (RenderRegion._chunks r))
             ∧ dict_get (chunk_coords u) (RenderRegion._chunks r)
               = last_pending (RenderRegion._manual_chunks r) u.
Proof.
  split; [reflexivity|].
  apply (pending_owned_by_last _ 0 0 16 "demo" gl_init). reflexivity.
Defined.

(** C2, as stated, fails: after two units for one coordinate the first is
    pending but not owned, and after [unload] a pending unit is left with an
    empty owned map. *)
Lemma pending_not_owned :
  (∃ r g,
     region_run [addUnit unit_a; addUnit unit_b] fresh_region gl_init = Ok (r, g)
     ∧ ¬ pending_is_owned r)
  ∧ (∃ r g,
       region_run [addUnit unit_a; unload] fresh_region gl_init = Ok (r, g)
       ∧ ¬ pending_is_owned r).
Proof.
  split; eexists _, _; (split; [reflexivity|]); intros Howned;
    specialize (Howned unit_a (list_elem_of_here _ _)); discriminate Howned.
Qed.

(** ** Membership and the invariant along calls *)

Lemma contains_spec cm c :
  ChunkManager.region_size cm ≠ 0 →
  ChunkManager.__contains__ cm c
  = Ok (bool_decide (c ∈ ChunkManager._chunk_temp_set cm)
        || match dict_get (region_of (ChunkManager.region_size cm) c)
                   (ChunkManager._regions cm) with
           | Some r => RenderRegion.__contains__ r c
           | None => false
           end).
Proof.
  intros Hrs. unfold ChunkManager.__contains__. rewrite region_coords_Ok by done.
  destruct c as [x z]. cbn [res_bind fst snd]. unfold dict_mem, dict_item.
  destruct (bool_decide _); [done|].
  by destruct (dict_get _ _).
Qed.

Lemma manager_inv_init identifier region_size :
  region_size ≠ 0 → manager_inv (ChunkManager.__init__ identifier region_size).
Proof. intros Hrs. split_and!; simpl; by try constructor. Qed.

Lemma manager_inv_add cm u :
  manager_inv cm → manager_inv (ChunkManager.add_render_chunk cm u).
Proof.
  intros (Hrs & Hnd & Hpl & Hmirror). split_and!; simpl; try done.
  apply Forall_app. split.
  - eapply Forall_impl; [exact Hmirror|]. intros v Hv. set_solver.
  - constructor; [|constructor]. unfold chunk_coords. set_solver.
Qed.

Lemma manager_step_inv cm c g :
  manager_inv cm →
  ∃ cm' g', manager_step cm c g = Ok (cm', g') ∧ manager_inv cm'.
Proof.
  intros Hinv. destruct c as [u|t|[[[[x0 z0] x1] z1]|]]; simpl.
  - eexists _, _. split; [reflexivity|]. by apply manager_inv_add.
  - destruct (draw_spec cm t g (proj1 Hinv))
      as (d1 & cm' & evs & g' & _ & [Hrun _] & Hrest).
    exists cm', g'. split; [done|]. by apply Hrest.
  - destruct (unload_area_spec cm x0 z0 x1 z1 g Hinv)
      as (d1 & cm' & evs & g' & [Hrun _] & Hrest).
    exists cm', g'. split; [done|]. apply Hrest.
  - destruct (unload_all_spec cm g)
      as (cm' & evs & g' & [Hrun _] & Hregions & Hq & Hset & Hsize & _).
    exists cm', g'. split; [done|]. destruct Hinv as (Hrs & _).
    split_and!; rewrite ?Hsize, ?Hregions, ?Hq; by try constructor.
Qed.

(** Whatever calls a new manager with a non-zero region size receives, none
    raises and the invariant holds afterwards. *)
Lemma manager_run_inv calls cm g :
  manager_inv cm →
  ∃ cm' g', manager_run calls cm g = Ok (cm', g') ∧ manager_inv cm'.
Proof.
  revert cm g. induction calls as [|c calls IH]; intros cm g Hinv; simpl.
  - by exists cm, g.
  - destruct (manager_step_inv cm c g Hinv) as (cm1 & g1 & Hstep & Hinv1).
    unfold gl_bind. rewrite Hstep. by apply IH.
Qed.

(** ** C4: partial eviction *)

(** C4. [unload(safe_area)] on a manager in a reachable state does not
    fail, and for every region of the map: if its coordinate lies in the
    box of region coordinates spanned by the two corners of [safe_area], it
    is still filed under that coordinate, with the same owned units and an
    empty pending list; otherwise its coordinate is no longer a key of the
    map, every unit it owned was released and its vertex array, if it had
    one, was deleted. *)
Theorem unload_safe_area cm x0 z0 x1 z1 g :
  manager_inv cm →
  let min_r := region_of (ChunkManager.region_size cm) (x0, z0) in
  let max_r := region_of (ChunkManager.region_size cm) (x1, z1) in
  ∃ cm' evs g',
    steps (ChunkManager.unload cm (Some (x0, z0, x1, z1))) g cm' evs g'
    ∧ ∀ k r, dict_get k (ChunkManager._regions cm) = Some r →
        (in_box min_r max_r k →
         ∃ r', dict_get k (ChunkManager._regions cm') = Some r'
               ∧ RenderRegion._manual_chunks r' = []
               ∧ RenderRegion._chunks r' = RenderRegion._chunks r)
        ∧ (¬ in_box min_r max_r k →
           (k ∉ dict_keys (ChunkManager._regions cm')) ∧ unloaded_by evs r).
Proof.
  intros Hinv min_r max_r.
  destruct (unload_area_spec cm x0 z0 x1 z1 g Hinv)
    as (d' & cm' & evs & g' & Hrun & Hrel & Hregions & _ & _ & _ & _ & _ & Hun & _).
  fold min_r max_r in Hrel, Hregions, Hun.
  exists cm', evs, g'. split; [done|]. intros k r Hget.
  pose proof (dict_get_Some_elem _ _ _ Hget) as Hin.
  destruct Hinv as (_ & _ & Hpl & _). rewrite Forall_forall in Hpl.
  destruct (Hpl _ Hin) as (Hkey & _). simpl in Hkey.
  pose proof (regions_rel_get _ _ _ k Hrel) as Hget'. rewrite Hget in Hget'.
  inversion Hget' as [r0 r' Hsettled Hr0 Hr'|]; subst r0.
  rewrite Hregions, (dict_get_filter (in_box min_r max_r)). split.
  - intros Hbox. rewrite decide_True by done. exists r'. split; [done|].
    destruct Hsettled as (_ & _ & Hmerged). rewrite Hkey in Hmerged.
    destruct (Hmerged Hbox) as [Hc Hm]. done.
  - intros Hbox. split; [|by apply (Hun (k, r))].
    apply dict_get_None_keys. rewrite (dict_get_filter (in_box min_r max_r)).
    by rewrite decide_False.
Qed.

Lemma unload_safe_area_witness :
  manager_inv manager_ac
  ∧ ∃ cm' evs g',
      steps (ChunkManager.unload manager_ac (Some (16, 0, 40, 40))) gl_init cm' evs g'
      ∧ ∀ k r, dict_get k (ChunkManager._regions manager_ac) = Some r →
          (in_box (region_of 16 (16, 0)) (region_of 16 (40, 40)) k →
           ∃ r', dict_get k (ChunkManager._regions cm') = Some r'
                 ∧ RenderRegion._manual_chunks r' = []
                 ∧ RenderRegion._chunks r' = RenderRegion._chunks r)
          ∧ (¬ in_box (region_of 16 (16, 0)) (region_of 16 (40, 40)) k →
             (k ∉ dict_keys (ChunkManager._regions cm')) ∧ unloaded_by evs r).
Proof.
  assert (manager_inv manager_ac) as Hinv
    by (apply (bool_decide_unpack _); vm_compute; exact I).
  split; [exact Hinv|].
  exact (unload_safe_area manager_ac 16 0 40 40 gl_init Hinv).
Defined.

Lemma unload_safe_area_total cm x0 z0 x1 z1 g :
  manager_inv cm →
  ∃ cm' g', ChunkManager.unload cm (Some (x0, z0, x1, z1)) g = Ok (cm', g')
            ∧ manager_inv cm'.
Proof. intros Hinv. apply (manager_step_inv cm (evict (Some (x0, z0, x1, z1))) g Hinv). Qed.

(** ** Where a drain puts a unit *)

Lemma routed_elem region_size queue u :
  u ∈ queue → u ∈ routed region_size (region_of region_size (chunk_coords u)) queue.
Proof. intros Hu. by apply list_elem_of_filter. Qed.

Lemma region_after_queued identifier region_size queue old u :
  u ∈ queue →
  ∃ r, region_after identifier region_size
         (region_of region_size (chunk_coords u)) queue old = Some r
       ∧ u ∈ RenderRegion._manual_chunks r
       ∧ RenderRegion.__contains__ r (chunk_coords u) = true
       ∧ ∀ v, old = Some v → RenderRegion._manual_chunks v ⊆ RenderRegion._manual_chunks r.
Proof.
  intros Hu%(routed_elem region_size). unfold region_after.
  set (k := region_of region_size (chunk_coords u)) in *.
  destruct (routed region_size k queue) as [|v us] eqn:Hrouted.
  { by apply elem_of_nil in Hu. }
  rewrite <- Hrouted in *. eexists. split_and!; [done| | |].
  - rewrite foldl_add_pending. apply elem_of_app. by right.
  - rewrite foldl_add_contains. apply orb_true_intro. left.
    apply bool_decide_eq_true_2, list_elem_of_fmap. by exists u.
  - intros v0 ->. simpl. rewrite foldl_add_pending.
    intros w Hw. apply elem_of_app. by left.
Qed.

Lemma region_after_resident identifier region_size k queue r :
  ∃ r', region_after identifier region_size k queue (Some r) = Some r'
        ∧ (∀ c, RenderRegion.__contains__ r c = true →
                RenderRegion.__contains__ r' c = true)
        ∧ RenderRegion._manual_chunks r' = RenderRegion._manual_chunks r
                                           ++ routed region_size k queue.
Proof.
  unfold region_after. destruct (routed region_size k queue) as [|v us] eqn:Hrouted.
  - exists r. split_and!; [done..|]. by rewrite app_nil_r.
  - eexists. split_and!; [done| |].
    + intros c Hc. rewrite foldl_add_contains. simpl in *. rewrite Hc.
      apply orb_true_r.
    + by rewrite foldl_add_pending.
Qed.

Lemma foldl_add_manager cm us :
  let cm' := foldl ChunkManager.add_render_chunk cm us in
  ChunkManager.identifier cm' = ChunkManager.identifier cm
  ∧ ChunkManager.region_size cm' = ChunkManager.region_size cm
  ∧ ChunkManager._regions cm' = ChunkManager._regions cm
  ∧ ChunkManager._chunk_temp cm' = ChunkManager._chunk_temp cm ++ us
  ∧ (∀ c, c ∈ ChunkManager._chunk_temp_set cm'
          ↔ c ∈ ChunkManager._chunk_temp_set cm ∨ c ∈ chunk_coords <$> us).
Proof.
  revert cm. induction us as [|u us IH]; intros cm; simpl.
  - split_and!; try done; [by rewrite app_nil_r|].
    intros c. split; [by left|]. intros [?|Hc]; [done|].
    by apply elem_of_nil in Hc.
  - destruct (IH (ChunkManager.add_render_chunk cm u)) as (-> & -> & -> & -> & Hset).
    split_and!; try done.
    + simpl. by rewrite <- app_assoc.
    + intros c. rewrite Hset. simpl. unfold chunk_coords at 2.
      rewrite elem_of_union, elem_of_singleton, elem_of_cons. tauto.
Qed.

(** After a draw every unit that was queued is in the pending list and the
    owned map of the region its coordinate belongs to, and every coordinate
    that was resident stays resident. *)
Lemma draw_routes cm t g :
  ChunkManager.region_size cm ≠ 0 →
  ∃ cm' evs g',
    steps (ChunkManager.draw cm t) g cm' evs g'
    ∧ ChunkManager.region_size cm' = ChunkManager.region_size cm
    ∧ ChunkManager._chunk_temp_set cm' = ∅
    ∧ (∀ u, u ∈ ChunkManager._chunk_temp cm →
         ∃ r, dict_get (region_of (ChunkManager.region_size cm) (chunk_coords u))
                (ChunkManager._regions cm') = Some r
              ∧ u ∈ RenderRegion._manual_chunks r
              ∧ RenderRegion.__contains__ r (chunk_coords u) = true)
    ∧ (∀ k r, dict_get k (ChunkManager._regions cm) = Some r →
         ∃ r', dict_get k (ChunkManager._regions cm') = Some r'
               ∧ (∀ c, RenderRegion.__contains__ r c = true →
                       RenderRegion.__contains__ r' c = true)
               ∧ RenderRegion._manual_chunks r ⊆ RenderRegion._manual_chunks r')
    ∧ drawn_chunks evs = chunk_id <$> all_pending (ChunkManager._regions cm)
    ∧ (manager_inv cm → manager_inv cm').
Proof.
  intros Hrs.
  destruct (draw_spec cm t g Hrs)
    as (d1 & cm' & evs & g' & _ & Hrun & Hrel & _ & Hsize & _ & Hset & Hregions
        & Hdrawn & _ & _ & _ & Hinv).
  exists cm', evs, g'. split_and!; try done.
  - intros u Hu. rewrite Hregions.
    destruct (region_after_queued (ChunkManager.identifier cm)
                (ChunkManager.region_size cm) (ChunkManager._chunk_temp cm)
                (dict_get (region_of (ChunkManager.region_size cm) (chunk_coords u)) d1)
                u Hu) as (r & Hafter & Hpending & Hcontains & _).
    by exists r.
  - intros k r Hget. rewrite Hregions.
    pose proof (regions_rel_get _ _ _ k Hrel) as Hget1. rewrite Hget in Hget1.
    inversion Hget1 as [r0 r1 Hsame Hr0 Hr1|]; subst r0.
    destruct Hsame as (_ & _ & _ & Hc & Hm & _).
    destruct (region_after_resident (ChunkManager.identifier cm)
                (ChunkManager.region_size cm) k (ChunkManager._chunk_temp cm) r1)
      as (r' & -> & Hcontains & Hpending).
    exists r'. split_and!; [done| |].
    + intros c Hin. apply Hcontains. unfold RenderRegion.__contains__ in *.
      by rewrite Hc.
    + rewrite Hpending, Hm. intros w Hw. apply elem_of_app. by left.
Qed.
